(** * ago: lightweight goroutine-like threads for C (src/ago.c)

    A shallow embedding of the thread pool of [ago.c].  The process-wide
    globals of the C file become one record, [state]; every library call the
    C code makes (semaphore, mutexes, condition variable, threads) is a small
    function on that record; the four entry points [alib_thread_init],
    [alib_go], [alib_thread_wait], [alib_thread_end] and the body of the
    idling thread [thread_idle] are written in a state monad whose outcomes
    also account for undefined behaviour and for a caller that is suspended. *)

From stdpp Require Import base numbers list.

Local Open Scope Z_scope.

(** ** Constants and plain data *)

(** [#define MAX_THREADS 1024] *)
Definition MAX_THREADS : Z := 1024.

(** Range of the C type [int] (32 bits). *)
Definition INT_MAX : Z := 2147483647.
Definition INT_MIN : Z := -2147483648.

(** [void ( * )(void * )] and [void *]: opaque addresses. *)
Definition fn_ptr : Type := Z.
Definition void_ptr : Type := Z.

(** [pthread_t]: the zero-initialised handle, or the handle of a thread that
    [pthread_create] has made. *)
Inductive pthread_t : Type :=
| NoThread
| Thread (tid : nat).

(** The two mutexes of the file. *)
Inductive mutex_id : Type := FuncMutex | NrunningMutex.

(** Who executes a piece of code: the thread that calls the API, or one of the
    idling threads. *)
Inductive thread_id : Type :=
| MainThread
| Worker (tid : nat).

(** [pthread_mutex_t]. *)
Inductive mutex_t : Type :=
| MxInvalid                      (* never initialised, or destroyed *)
| MxFree
| MxHeld (o : thread_id).

(** [pthread_cond_t], with at most one waiter (the caller of
    [alib_thread_wait]). *)
Inductive cond_t : Type :=
| CvInvalid                      (* never initialised, or destroyed *)
| CvReady                        (* nobody waits *)
| CvWaiting                      (* the waiter is suspended *)
| CvSignalled.                   (* the waiter was signalled and may resume *)

(** Where an idling thread stands in [thread_idle]. *)
Inductive wstatus : Type :=
| WSemWait                       (* at [sem_wait(&sem)], line 85 *)
| WRunning (f : fn_ptr) (a : void_ptr)   (* inside [func(arg)], line 101 *)
| WExited                        (* returned NULL, line 88 *)
| WJoined.                       (* exited and joined *)

(** The globals of the file. *)
Inductive global : Type :=
| Gnthreads | Galib_thread_quit | Gthread_list | Gfunc_list | Garg_list
| Gnfuncs | Gnrunning.

(** What the program does that another thread or the system can observe, in
    program order: library calls and stores to globals. *)
Inductive event : Type :=
| EvSemInit | EvSemPost | EvSemWait | EvSemGetvalue | EvSemDestroy
| EvMutexInit (m : mutex_id) | EvLock (m : mutex_id) | EvUnlock (m : mutex_id)
| EvMutexDestroy (m : mutex_id)
| EvCondInit | EvCondWait | EvCondSignal | EvCondDestroy
| EvCreate (i : Z) | EvJoin (h : pthread_t)
| EvUsleep
| EvCall (f : fn_ptr) (a : void_ptr)
| EvStore (g : global).

(** The call sites whose return code the C code tests.  The environment
    decides which of them fail. *)
Inductive call_site : Type :=
| InitSem | InitMutex (m : mutex_id) | InitCond
| InitCreate (i : Z)             (* [pthread_create] of iteration [i] *)
| InitGetvalue (k : nat)         (* [sem_getvalue] of polling round [k] *)
| EndPost (i : Z) | EndJoin (i : Z)
| EndSemDestroy | EndMutexDestroy | EndCondDestroy
| GoPost.

(** Return code of each call site; [0] is success. *)
Definition os_env : Type := call_site → Z.

(** The environment in which every library call succeeds. *)
Definition all_ok : os_env := λ _, 0.

(** ** The state *)

(** The globals of [ago.c] ([free_thread] and [nfree_thread] are declared but
    no function reads or writes them; they are left out), the state of the
    threads the pool has created, and the trace of events so far. *)
Record state : Type := mkState {
  nthreads : Z;
  alib_thread_quit : Z;
  thread_list : list pthread_t;
  func_list : list fn_ptr;
  arg_list : list void_ptr;
  func_mutex : mutex_t;
  nfuncs : Z;
  sem : option Z;                (* [None]: not a valid semaphore *)
  nrunning : Z;
  nrunning_mutex : mutex_t;
  idle_condition : cond_t;
  threads : list wstatus;        (* indexed by thread handle *)
  trace : list event
}.

Definition set_nthreads (v : Z) (s : state) : state :=
  mkState v (alib_thread_quit s) (thread_list s) (func_list s) (arg_list s)
    (func_mutex s) (nfuncs s) (sem s) (nrunning s) (nrunning_mutex s)
    (idle_condition s) (threads s) (trace s).
Definition set_alib_thread_quit (v : Z) (s : state) : state :=
  mkState (nthreads s) v (thread_list s) (func_list s) (arg_list s)
    (func_mutex s) (nfuncs s) (sem s) (nrunning s) (nrunning_mutex s)
    (idle_condition s) (threads s) (trace s).
Definition set_thread_list (v : list pthread_t) (s : state) : state :=
  mkState (nthreads s) (alib_thread_quit s) v (func_list s) (arg_list s)
    (func_mutex s) (nfuncs s) (sem s) (nrunning s) (nrunning_mutex s)
    (idle_condition s) (threads s) (trace s).
Definition set_func_list (v : list fn_ptr) (s : state) : state :=
  mkState (nthreads s) (alib_thread_quit s) (thread_list s) v (arg_list s)
    (func_mutex s) (nfuncs s) (sem s) (nrunning s) (nrunning_mutex s)
    (idle_condition s) (threads s) (trace s).
Definition set_arg_list (v : list void_ptr) (s : state) : state :=
  mkState (nthreads s) (alib_thread_quit s) (thread_list s) (func_list s) v
    (func_mutex s) (nfuncs s) (sem s) (nrunning s) (nrunning_mutex s)
    (idle_condition s) (threads s) (trace s).
Definition set_func_mutex (v : mutex_t) (s : state) : state :=
  mkState (nthreads s) (alib_thread_quit s) (thread_list s) (func_list s)
    (arg_list s) v (nfuncs s) (sem s) (nrunning s) (nrunning_mutex s)
    (idle_condition s) (threads s) (trace s).
Definition set_nfuncs (v : Z) (s : state) : state :=
  mkState (nthreads s) (alib_thread_quit s) (thread_list s) (func_list s)
    (arg_list s) (func_mutex s) v (sem s) (nrunning s) (nrunning_mutex s)
    (idle_condition s) (threads s) (trace s).
Definition set_sem (v : option Z) (s : state) : state :=
  mkState (nthreads s) (alib_thread_quit s) (thread_list s) (func_list s)
    (arg_list s) (func_mutex s) (nfuncs s) v (nrunning s) (nrunning_mutex s)
    (idle_condition s) (threads s) (trace s).
Definition set_nrunning (v : Z) (s : state) : state :=
  mkState (nthreads s) (alib_thread_quit s) (thread_list s) (func_list s)
    (arg_list s) (func_mutex s) (nfuncs s) (sem s) v (nrunning_mutex s)
    (idle_condition s) (threads s) (trace s).
Definition set_nrunning_mutex (v : mutex_t) (s : state) : state :=
  mkState (nthreads s) (alib_thread_quit s) (thread_list s) (func_list s)
    (arg_list s) (func_mutex s) (nfuncs s) (sem s) (nrunning s) v
    (idle_condition s) (threads s) (trace s).
Definition set_idle_condition (v : cond_t) (s : state) : state :=
  mkState (nthreads s) (alib_thread_quit s) (thread_list s) (func_list s)
    (arg_list s) (func_mutex s) (nfuncs s) (sem s) (nrunning s)
    (nrunning_mutex s) v (threads s) (trace s).
Definition set_threads (v : list wstatus) (s : state) : state :=
  mkState (nthreads s) (alib_thread_quit s) (thread_list s) (func_list s)
    (arg_list s) (func_mutex s) (nfuncs s) (sem s) (nrunning s)
    (nrunning_mutex s) (idle_condition s) v (trace s).
Definition set_trace (v : list event) (s : state) : state :=
  mkState (nthreads s) (alib_thread_quit s) (thread_list s) (func_list s)
    (arg_list s) (func_mutex s) (nfuncs s) (sem s) (nrunning s)
    (nrunning_mutex s) (idle_condition s) (threads s) v.

(** The state of the process when [main] starts: the globals hold their
    initialisers (zero where there is none), no semaphore, mutex or
    condition variable has been initialised, and the pool has no thread. *)
Definition initial_state : state :=
  {| nthreads := 0;
     alib_thread_quit := 0;
     thread_list := replicate (Z.to_nat MAX_THREADS) NoThread;
     func_list := replicate (Z.to_nat MAX_THREADS) 0;
     arg_list := replicate (Z.to_nat MAX_THREADS) 0;
     func_mutex := MxInvalid;
     nfuncs := 0;
     sem := None;
     nrunning := 0;
     nrunning_mutex := MxInvalid;
     idle_condition := CvInvalid;
     threads := [];
     trace := [] |}.

(** ** Outcomes and the monad *)

(** Undefined behaviour the code can run into. *)
Inductive ub : Type :=
| OutOfBounds (g : global) (i : Z)   (* element [i] of an array of
                                        [MAX_THREADS] elements *)
| SignedOverflow (g : global)        (* [++] or [--] outside the range of int *)
| InvalidSem                         (* use of a semaphore that is not valid *)
| InvalidMutex (m : mutex_id)        (* use of a mutex that is not valid, or
                                        unlocking one the caller does not hold *)
| InvalidCond
| NotJoinable (h : pthread_t).

(** What running a piece of code from a state leads to. *)
Inductive outcome (A : Type) : Type :=
| Ret (a : A) (s : state)      (* it returns [a], leaving the state [s] *)
| Undef (u : ub)               (* the behaviour is undefined *)
| Blocks (s : state)           (* the executing thread is suspended in a
                                  library call, the state being [s] *)
| Diverges.                    (* the loop bound of the model was reached *)
Arguments Ret {A} a s.
Arguments Undef {A} u.
Arguments Blocks {A} s.
Arguments Diverges {A}.

Definition M (A : Type) : Type := state → outcome A.

Definition ret {A} (a : A) : M A := λ s, Ret a s.

Definition bind {A B} (m : M A) (k : A → M B) : M B :=
  λ s, match m s with
       | Ret a s' => k a s'
       | Undef u => Undef u
       | Blocks s' => Blocks s'
       | Diverges => Diverges
       end.

Declare Scope pool_scope.
Delimit Scope pool_scope with pool.
Notation "x <- m ;; k" := (bind m (λ x, k))
  (at level 100, m at next level, right associativity) : pool_scope.
Notation "m ;;; k" := (bind m (λ _, k))
  (at level 100, right associativity) : pool_scope.
Local Open Scope pool_scope.

Definition get : M state := λ s, Ret s s.
Definition modify (f : state → state) : M unit := λ s, Ret tt (f s).
Definition undef {A} (u : ub) : M A := λ _, Undef u.
Definition blocks {A} : M A := λ s, Blocks s.
Definition diverges {A} : M A := λ _, Diverges.

(** Appends an event to the trace. *)
Definition emit (e : event) : M unit :=
  modify (λ s, set_trace (trace s ++ [e]) s).

(** A store to a global. *)
Definition store (g : global) (f : state → state) : M unit :=
  modify f;;; emit (EvStore g).

(** [x++] and [x--] on an int: overflow is undefined. *)
Definition incr (g : global) (x : Z) : M Z :=
  if x <? INT_MAX then ret (x + 1) else undef (SignedOverflow g).
Definition decr (g : global) (x : Z) : M Z :=
  if INT_MIN <? x then ret (x - 1) else undef (SignedOverflow g).

(** Arrays of [MAX_THREADS] elements. *)
Definition in_bounds (i : Z) : bool := (0 <=? i) && (i <? MAX_THREADS).

Definition array_read {A} (g : global) (l : list A) (i : Z) : M A :=
  if in_bounds i then
    match l !! Z.to_nat i with
    | Some x => ret x
    | None => undef (OutOfBounds g i)
    end
  else undef (OutOfBounds g i).

Definition array_write {A} (g : global) (l : list A) (i : Z) (x : A)
  : M (list A) :=
  if in_bounds i then ret (<[Z.to_nat i := x]> l)
  else undef (OutOfBounds g i).

(** ** The library calls

    Each call is modelled on the object it acts on.  A call whose return code
    the C code tests takes the environment and its call site; when the
    environment makes it fail, the object is left as it was. *)

Global Instance thread_id_eq_dec : EqDecision thread_id.
Proof. solve_decision. Defined.

Definition get_mutex (m : mutex_id) (s : state) : mutex_t :=
  match m with
  | FuncMutex => func_mutex s
  | NrunningMutex => nrunning_mutex s
  end.

Definition set_mutex (m : mutex_id) (v : mutex_t) (s : state) : state :=
  match m with
  | FuncMutex => set_func_mutex v s
  | NrunningMutex => set_nrunning_mutex v s
  end.

(** [sem_init(&sem, 0, value)] *)
Definition sem_init (e : os_env) (c : call_site) (value : Z) : M Z :=
  emit EvSemInit;;;
  if e c =? 0 then modify (set_sem (Some value));;; ret 0 else ret (e c).

(** [sem_post(&sem)] *)
Definition sem_post (e : os_env) (c : call_site) : M Z :=
  s <- get;;
  match sem s with
  | None => undef InvalidSem
  | Some v =>
      emit EvSemPost;;;
      if e c =? 0 then modify (set_sem (Some (v + 1)));;; ret 0 else ret (e c)
  end.

(** [sem_wait(&sem)]: takes one unit, or suspends the caller when there is
    none. *)
Definition sem_wait : M unit :=
  s <- get;;
  match sem s with
  | None => undef InvalidSem
  | Some v =>
      if 0 <? v then modify (set_sem (Some (v - 1)));;; emit EvSemWait
      else blocks
  end.

(** [sem_getvalue(&sem, &sval)]: the return code and the value read. *)
Definition sem_getvalue (e : os_env) (c : call_site) : M (Z * Z) :=
  s <- get;;
  match sem s with
  | None => undef InvalidSem
  | Some v => emit EvSemGetvalue;;; ret (e c, v)
  end.

(** [sem_destroy(&sem)] *)
Definition sem_destroy (e : os_env) (c : call_site) : M Z :=
  s <- get;;
  match sem s with
  | None => undef InvalidSem
  | Some _ =>
      emit EvSemDestroy;;;
      if e c =? 0 then modify (set_sem None);;; ret 0 else ret (e c)
  end.

(** [pthread_mutex_init(&m, NULL)] *)
Definition pthread_mutex_init (e : os_env) (c : call_site) (m : mutex_id)
  : M Z :=
  emit (EvMutexInit m);;;
  if e c =? 0 then modify (set_mutex m MxFree);;; ret 0 else ret (e c).

(** [pthread_mutex_lock(&m)], executed by thread [o]. *)
Definition pthread_mutex_lock (o : thread_id) (m : mutex_id) : M unit :=
  s <- get;;
  match get_mutex m s with
  | MxInvalid => undef (InvalidMutex m)
  | MxFree => modify (set_mutex m (MxHeld o));;; emit (EvLock m)
  | MxHeld _ => blocks
  end.

(** [pthread_mutex_unlock(&m)], executed by thread [o]. *)
Definition pthread_mutex_unlock (o : thread_id) (m : mutex_id) : M unit :=
  s <- get;;
  match get_mutex m s with
  | MxHeld o' =>
      if decide (o = o') then modify (set_mutex m MxFree);;; emit (EvUnlock m)
      else undef (InvalidMutex m)
  | _ => undef (InvalidMutex m)
  end.

(** [pthread_mutex_destroy(&m)] *)
Definition pthread_mutex_destroy (e : os_env) (c : call_site) (m : mutex_id)
  : M Z :=
  s <- get;;
  match get_mutex m s with
  | MxFree =>
      emit (EvMutexDestroy m);;;
      if e c =? 0 then modify (set_mutex m MxInvalid);;; ret 0 else ret (e c)
  | _ => undef (InvalidMutex m)
  end.

(** [pthread_cond_init(&idle_condition, NULL)] *)
Definition pthread_cond_init (e : os_env) (c : call_site) : M Z :=
  emit EvCondInit;;;
  if e c =? 0 then modify (set_idle_condition CvReady);;; ret 0 else ret (e c).

(** [pthread_cond_wait(&idle_condition, &m)], up to the point where the
    caller is suspended: the mutex is released and the caller waits for a
    signal.  The call never returns without one (no spurious wake-up is
    modelled, a program cannot count on them). *)
Definition pthread_cond_wait (o : thread_id) (m : mutex_id) : M unit :=
  s <- get;;
  match idle_condition s with
  | CvInvalid => undef InvalidCond
  | CvReady =>
      match get_mutex m s with
      | MxHeld o' =>
          if decide (o = o') then
            emit EvCondWait;;;
            modify (set_mutex m MxFree);;;
            modify (set_idle_condition CvWaiting);;;
            blocks
          else undef (InvalidMutex m)
      | _ => undef (InvalidMutex m)
      end
  | CvWaiting | CvSignalled => blocks
  end.

(** The rest of [pthread_cond_wait], once the waiter has been signalled: it
    takes the mutex again and the call returns. *)
Definition pthread_cond_wait_resume (o : thread_id) (m : mutex_id) : M unit :=
  s <- get;;
  match idle_condition s with
  | CvInvalid => undef InvalidCond
  | CvSignalled =>
      match get_mutex m s with
      | MxInvalid => undef (InvalidMutex m)
      | MxFree =>
          modify (set_mutex m (MxHeld o));;;
          modify (set_idle_condition CvReady)
      | MxHeld _ => blocks
      end
  | CvReady | CvWaiting => blocks
  end.

(** [pthread_cond_signal(&idle_condition)]: wakes the waiter if there is one,
    and is lost otherwise. *)
Definition pthread_cond_signal : M unit :=
  s <- get;;
  match idle_condition s with
  | CvInvalid => undef InvalidCond
  | CvWaiting => modify (set_idle_condition CvSignalled);;; emit EvCondSignal
  | CvReady | CvSignalled => emit EvCondSignal
  end.

(** [pthread_cond_destroy(&idle_condition)] *)
Definition pthread_cond_destroy (e : os_env) (c : call_site) : M Z :=
  s <- get;;
  match idle_condition s with
  | CvReady =>
      emit EvCondDestroy;;;
      if e c =? 0 then modify (set_idle_condition CvInvalid);;; ret 0
      else ret (e c)
  | _ => undef InvalidCond
  end.

(** [pthread_create(thread_list+i, NULL, &thread_idle, NULL)]: the handle is
    stored through the pointer [thread_list+i], which must point into the
    array; the new thread starts [thread_idle] and so stands at its
    [sem_wait]. *)
Definition pthread_create (e : os_env) (c : call_site) (i : Z) : M Z :=
  s <- get;;
  l <- array_write Gthread_list (thread_list s) i
         (Thread (length (threads s)));;
  emit (EvCreate i);;;
  if e c =? 0 then
    modify (set_thread_list l);;;
    emit (EvStore Gthread_list);;;
    modify (set_threads (threads s ++ [WSemWait]));;;
    ret 0
  else ret (e c).

(** usleep(10) *)
Definition usleep : M unit := emit EvUsleep.

(** ** [thread_idle] *)

Definition set_status (tid : nat) (w : wstatus) : M unit :=
  modify (λ s, set_threads (<[tid := w]> (threads s)) s).

(** One step of the idling thread [tid], from one of the two places where it
    can wait to the next.  From [sem_wait] (line 85): it takes a unit of the
    semaphore, returns if the quit message is set, and otherwise pops the
    top of the function stack under [func_mutex] and calls the function
    (lines 88-101).  From the call (line 101), when the function returns:
    it decrements [nrunning] under [nrunning_mutex], signals the condition
    when the count is zero, and goes back to [sem_wait] (lines 105-108).
    The called function is opaque and is taken not to touch the pool. *)
Definition thread_idle_step (tid : nat) : M unit :=
  s <- get;;
  match threads s !! tid with
  | Some WSemWait =>
      sem_wait;;;
      s <- get;;
      if alib_thread_quit s =? 0 then
        pthread_mutex_lock (Worker tid) FuncMutex;;;
        s <- get;;
        n <- decr Gnfuncs (nfuncs s);;
        store Gnfuncs (set_nfuncs n);;;
        func <- array_read Gfunc_list (func_list s) n;;
        arg <- array_read Garg_list (arg_list s) n;;
        pthread_mutex_unlock (Worker tid) FuncMutex;;;
        emit (EvCall func arg);;;
        set_status tid (WRunning func arg)
      else set_status tid WExited
  | Some (WRunning _ _) =>
      pthread_mutex_lock (Worker tid) NrunningMutex;;;
      s <- get;;
      n <- decr Gnrunning (nrunning s);;
      store Gnrunning (set_nrunning n);;;
      (if n =? 0 then pthread_cond_signal else ret tt);;;
      pthread_mutex_unlock (Worker tid) NrunningMutex;;;
      set_status tid WSemWait
  | Some WExited | Some WJoined | None => blocks
  end.

(** Runs thread [tid] until it has returned from [thread_idle]. *)
Fixpoint run_thread (fuel : nat) (tid : nat) : M unit :=
  s <- get;;
  match threads s !! tid with
  | Some WExited => ret tt
  | _ =>
      match fuel with
      | O => diverges
      | S fuel' => thread_idle_step tid;;; run_thread fuel' tid
      end
  end.

(** [pthread_join(h, NULL)]: waits until the thread has returned.  The caller
    is suspended meanwhile, so the thread's remaining steps are part of the
    call. *)
Definition pthread_join (e : os_env) (c : call_site) (fuel : nat)
  (h : pthread_t) : M Z :=
  s <- get;;
  match h with
  | NoThread => undef (NotJoinable h)
  | Thread tid =>
      match threads s !! tid with
      | None | Some WJoined => undef (NotJoinable h)
      | Some _ =>
          emit (EvJoin h);;;
          if e c =? 0 then
            run_thread fuel tid;;; set_status tid WJoined;;; ret 0
          else ret (e c)
      end
  end.

(** ** [alib_thread_init] *)

(** The loop of lines 143-150, [for(i=0;i<max_conc;i++)], with [todo]
    iterations left to run from index [i].  [Some c]: the function returns
    [c] from inside the loop; [None]: the loop ran to its end. *)
Fixpoint init_create_loop (e : os_env) (todo : nat) (i : Z) : M (option Z) :=
  match todo with
  | O => ret None
  | S todo' =>
      rc <- pthread_create e (InitCreate i) i;;
      if rc =? 0 then
        s <- get;;
        n <- incr Gnthreads (nthreads s);;
        store Gnthreads (set_nthreads n);;;
        init_create_loop e todo' (i + 1)
      else ret (Some (-6))
  end.

(** The loop of lines 154-158, [while(1)], bounded by [fuel] rounds; [k] is
    the number of the round.  It yields what the function returns. *)
Fixpoint init_poll_loop (e : os_env) (fuel : nat) (k : nat) : M Z :=
  match fuel with
  | O => diverges
  | S fuel' =>
      r <- sem_getvalue e (InitGetvalue k);;
      let (rc, sval) := r : Z * Z in
      if rc =? 0 then
        if sval <=? 0 then ret 0
        else usleep;;; init_poll_loop e fuel' (S k)
      else ret (-7)
  end.

Definition alib_thread_init (e : os_env) (fuel : nat) (max_conc : Z) : M Z :=
  (* this is for restarting *)
  store Galib_thread_quit (set_alib_thread_quit 0);;;
  (* alib_threads already started? *)
  s <- get;;
  if nthreads s =? 0 then
    rc <- sem_init e InitSem 0;;
    if rc =? 0 then
      rc <- pthread_mutex_init e (InitMutex FuncMutex) FuncMutex;;
      if rc =? 0 then
        rc <- pthread_mutex_init e (InitMutex NrunningMutex) NrunningMutex;;
        if rc =? 0 then
          rc <- pthread_cond_init e InitCond;;
          if rc =? 0 then
            r <- init_create_loop e (Z.to_nat max_conc) 0;;
            match r with
            | Some c => ret c
            | None => init_poll_loop e fuel 0
            end
          else ret (-5)
        else ret (-4)
      else ret (-3)
    else ret (-1)
  else ret (-1).

(** ** [alib_thread_wait] *)

(** The function up to the point where its caller is suspended.  Its outcome
    is never [Ret]: line 167 suspends the caller in every state in which it
    is defined. *)
Definition alib_thread_wait : M Z :=
  pthread_mutex_lock MainThread NrunningMutex;;;
  pthread_cond_wait MainThread NrunningMutex;;;
  pthread_mutex_unlock MainThread NrunningMutex;;;
  ret 0.

(** The rest of the function, from the wake-up inside line 167 on. *)
Definition alib_thread_wait_resume : M Z :=
  pthread_cond_wait_resume MainThread NrunningMutex;;;
  pthread_mutex_unlock MainThread NrunningMutex;;;
  ret 0.

(** ** [alib_thread_end] *)

(** The loop of lines 187-189. *)
Fixpoint end_post_loop (e : os_env) (todo : nat) (i : Z) : M (option Z) :=
  match todo with
  | O => ret None
  | S todo' =>
      rc <- sem_post e (EndPost i);;
      if rc =? 0 then end_post_loop e todo' (i + 1) else ret (Some 1)
  end.

(** Once the quit message is set, an idling thread returns within two steps:
    the end of the function it runs, if any, and the wake-up. *)
Definition join_fuel : nat := 2.

(** The loop of lines 192-194. *)
Fixpoint end_join_loop (e : os_env) (todo : nat) (i : Z) : M (option Z) :=
  match todo with
  | O => ret None
  | S todo' =>
      s <- get;;
      h <- array_read Gthread_list (thread_list s) i;;
      rc <- pthread_join e (EndJoin i) join_fuel h;;
      if rc =? 0 then end_join_loop e todo' (i + 1) else ret (Some 2)
  end.

(** Both loops test [i<nthreads]; nothing writes [nthreads] while they run,
    so each makes [nthreads] iterations (none when it is not positive). *)
Definition alib_thread_end (e : os_env) : M Z :=
  (* tell all threads to quit *)
  store Galib_thread_quit (set_alib_thread_quit 1);;;
  (* enable all threads to quit *)
  s <- get;;
  r <- end_post_loop e (Z.to_nat (nthreads s)) 0;;
  match r with
  | Some c => ret c
  | None =>
      (* wait for all threads to quit *)
      r <- end_join_loop e (Z.to_nat (nthreads s)) 0;;
      match r with
      | Some c => ret c
      | None =>
          (* clean up data structures *)
          store Gnrunning (set_nrunning 0);;;
          rc <- sem_destroy e EndSemDestroy;;
          if rc =? 0 then
            rc <- pthread_mutex_destroy e EndMutexDestroy NrunningMutex;;
            if rc =? 0 then
              rc <- pthread_cond_destroy e EndCondDestroy;;
              if rc =? 0 then ret 0 else ret 5
            else ret 4
          else ret 3
      end
  end.

(** ** [alib_go] *)

Definition alib_go (e : os_env) (func : fn_ptr) (arg : void_ptr) : M Z :=
  s <- get;;
  (* have we been initialized? *)
  if nthreads s =? 0 then ret 1
  (* too many waiting functions? *)
  else if nfuncs s =? MAX_THREADS then ret 2
  else
    (* add function to stack *)
    pthread_mutex_lock MainThread FuncMutex;;;
    s <- get;;
    fl <- array_write Gfunc_list (func_list s) (nfuncs s) func;;
    store Gfunc_list (set_func_list fl);;;
    al <- array_write Garg_list (arg_list s) (nfuncs s) arg;;
    store Garg_list (set_arg_list al);;;
    n <- incr Gnfuncs (nfuncs s);;
    store Gnfuncs (set_nfuncs n);;;
    pthread_mutex_unlock MainThread FuncMutex;;;
    (* increment the number of running functions *)
    pthread_mutex_lock MainThread NrunningMutex;;;
    s <- get;;
    n <- incr Gnrunning (nrunning s);;
    store Gnrunning (set_nrunning n);;;
    pthread_mutex_unlock MainThread NrunningMutex;;;
    (* now allow one thread to be released and run it *)
    rc <- sem_post e GoPost;;
    if rc =? 0 then ret 0 else ret 3.

(** ** The pool as a transition system *)

(** What can happen while the API's caller is suspended or between two of its
    calls: an idling thread makes a step, or the caller of
    [alib_thread_wait], once signalled, returns from it. *)
Inductive step : state → state → Prop :=
| step_idle tid s s' :
    thread_idle_step tid s = Ret tt s' → step s s'
| step_wait_return s s' r :
    alib_thread_wait_resume s = Ret r s' → step s s'.

(** A call of the API by the one thread that uses the pool. *)
Inductive api_call : Type :=
| CallInit (fuel : nat) (max_conc : Z)
| CallGo (func : fn_ptr) (arg : void_ptr)
| CallWait
| CallEnd.

Definition run_call (e : os_env) (c : api_call) : M Z :=
  match c with
  | CallInit fuel max_conc => alib_thread_init e fuel max_conc
  | CallGo func arg => alib_go e func arg
  | CallWait => alib_thread_wait
  | CallEnd => alib_thread_end e
  end.

(** The states a program can bring the pool to, starting from
    [initial_state]: by a call that returns, by a call that suspends its
    caller, or by a step of the system. *)
Inductive reachable : state → Prop :=
| reach_initial : reachable initial_state
| reach_return e c s r s' :
    reachable s → run_call e c s = Ret r s' → reachable s'
| reach_suspend e c s s' :
    reachable s → run_call e c s = Blocks s' → reachable s'
| reach_step s s' :
    reachable s → step s s' → reachable s'.

(** The state a piece of code leaves, whether it returns or suspends its
    caller. *)
Definition final {A} (o : outcome A) : option state :=
  match o with
  | Ret _ s | Blocks s => Some s
  | Undef _ | Diverges => None
  end.

(** ** Vocabulary of the statements *)

(** The function stack has not grown. *)
Definition nfuncs_le (s s' : state) : Prop := nfuncs s' ≤ nfuncs s.

(** What [alib_thread_end] and the threads it waits for leave alone:
    [nthreads] always, and the quit message and [func_mutex] once the quit
    message is set. *)
Definition end_frame (s s' : state) : Prop :=
  nthreads s' = nthreads s ∧
  (alib_thread_quit s ≠ 0 →
   alib_thread_quit s' = alib_thread_quit s ∧ func_mutex s' = func_mutex s).

(** The state after one iteration of the loop of [alib_thread_init] in which
    [pthread_create] succeeds. *)
Definition spawn_one (i : Z) (s : state) : state :=
  set_trace (trace s ++ [EvCreate i; EvStore Gthread_list; EvStore Gnthreads])
    (set_nthreads (nthreads s + 1)
       (set_threads (threads s ++ [WSemWait])
          (set_thread_list
             (<[Z.to_nat i := Thread (length (threads s))]> (thread_list s))
             s))).

(** The state after [todo] such iterations from index [i]. *)
Fixpoint spawn_many (todo : nat) (i : Z) (s : state) : state :=
  match todo with
  | O => s
  | S todo' => spawn_many todo' (i + 1) (spawn_one i s)
  end.

(** The state after the first five statements of [alib_thread_init] when the
    pool is not started and the four objects are created. *)
Definition init_resources (s : state) : state :=
  set_trace
    (trace s ++
     [EvStore Galib_thread_quit; EvSemInit; EvMutexInit FuncMutex;
      EvMutexInit NrunningMutex; EvCondInit])
    (set_idle_condition CvReady
       (set_nrunning_mutex MxFree
          (set_func_mutex MxFree
             (set_sem (Some 0) (set_alib_thread_quit 0 s))))).

(** The state in which a successful [alib_thread_init] returns. *)
Definition init_done (max_conc : Z) (s : state) : state :=
  let s1 := spawn_many (Z.to_nat max_conc) 0 (init_resources s) in
  set_trace (trace s1 ++ [EvSemGetvalue]) s1.

(** The four objects could be created. *)
Definition resources_ok (e : os_env) : Prop :=
  e InitSem = 0 ∧ e (InitMutex FuncMutex) = 0 ∧
  e (InitMutex NrunningMutex) = 0 ∧ e InitCond = 0.

(** The three arrays keep their size. *)
Definition same_lengths (s s' : state) : Prop :=
  length (thread_list s') = length (thread_list s) ∧
  length (func_list s') = length (func_list s) ∧
  length (arg_list s') = length (arg_list s).

(** The running count has not grown. *)
Definition nrunning_le (s s' : state) : Prop := nrunning s' ≤ nrunning s.

(** The state an outcome carries ([initial_state] when it carries none). *)
Definition state_of {A} (o : outcome A) : state :=
  match o with
  | Ret _ s | Blocks s => s
  | Undef _ | Diverges => initial_state
  end.

(** An environment in which [sem_init] fails and every other call
    succeeds. *)
Definition sem_init_fails : os_env :=
  λ c, match c with InitSem => 1 | _ => 0 end.

(** An environment in which the [sem_post] calls of [alib_thread_end] fail
    and every other call succeeds. *)
Definition end_post_fails : os_env :=
  λ c, match c with EndPost _ => 1 | _ => 0 end.

(** The state after the two critical sections of [alib_go] and its call of
    [sem_post], whether that call succeeds or not; the semaphore is as
    before. *)
Definition go_pushed (func : fn_ptr) (arg : void_ptr) (s : state) : state :=
  set_trace
    (trace s ++
     [EvLock FuncMutex; EvStore Gfunc_list; EvStore Garg_list;
      EvStore Gnfuncs; EvUnlock FuncMutex;
      EvLock NrunningMutex; EvStore Gnrunning; EvUnlock NrunningMutex;
      EvSemPost])
    (set_nrunning (nrunning s + 1)
       (set_nfuncs (nfuncs s + 1)
          (set_arg_list (<[Z.to_nat (nfuncs s) := arg]> (arg_list s))
             (set_func_list (<[Z.to_nat (nfuncs s) := func]> (func_list s))
                s)))).

(** An environment in which the [sem_post] of [alib_go] fails and every
    other call succeeds. *)
Definition go_post_fails : os_env :=
  λ c, match c with GoPost => 1 | _ => 0 end.

(** An environment in which the [pthread_join] calls of [alib_thread_end]
    fail and every other call succeeds. *)
Definition end_join_fails : os_env :=
  λ c, match c with EndJoin _ => 1 | _ => 0 end.

(** The conditions under which [alib_go] gets as far as [sem_post]. *)
Definition go_can_push (s : state) : Prop :=
  nthreads s ≠ 0 ∧ 0 ≤ nfuncs s < MAX_THREADS ∧ nrunning s < INT_MAX ∧
  func_mutex s = MxFree ∧ nrunning_mutex s = MxFree.

(** A pool of one thread on which [alib_thread_end] has failed at
    [pthread_join]: the quit message is set, the semaphore holds the unit
    posted for the thread, and the thread still waits. *)
Definition half_ended_pool : state :=
  state_of (alib_thread_end end_join_fails (init_done 1 initial_state)).

(** The same pool after a further [alib_thread_init], which has cleared the
    quit message and returned -1. *)
Definition revived_pool : state :=
  state_of (alib_thread_init all_ok 1 1 half_ended_pool).

(** What holds of the pool in every state a program can reach: the stack
    index is within the arrays, the semaphore is not negative, no mutex is
    held between two steps, [nthreads] counts the threads created, which are
    at most [MAX_THREADS], and [thread_list] holds their handles in order. *)
Definition pool_inv (s : state) : Prop :=
  0 ≤ nfuncs s ≤ MAX_THREADS ∧
  (∀ v, sem s = Some v → 0 ≤ v) ∧
  (∀ o, func_mutex s ≠ MxHeld o) ∧
  (∀ o, nrunning_mutex s ≠ MxHeld o) ∧
  nthreads s = Z.of_nat (length (threads s)) ∧
  nthreads s ≤ MAX_THREADS ∧
  length (thread_list s) = Z.to_nat MAX_THREADS ∧
  (∀ i, (i < length (threads s))%nat → thread_list s !! i = Some (Thread i)).

(** A step keeps a property of the state. *)
Definition keeps (I : state → Prop) (s s' : state) : Prop := I s → I s'.

(** Nobody is suspended in [alib_thread_wait]. *)
Definition no_waiter (s : state) : Prop :=
  idle_condition s ≠ CvWaiting ∧ idle_condition s ≠ CvSignalled.

(** The states one caller can bring the pool to.  The flag tells whether the
    caller is suspended in [alib_thread_wait]; while it is, only the idling
    threads run, and the wait returns once it has been signalled. *)
Inductive pool_reach : bool → state → Prop :=
| pr_initial : pool_reach false initial_state
| pr_return e c s r s' :
    pool_reach false s → run_call e c s = Ret r s' → pool_reach false s'
| pr_wait s s' :
    pool_reach false s → alib_thread_wait s = Blocks s' → pool_reach true s'
| pr_idle b tid s s' :
    pool_reach b s → thread_idle_step tid s = Ret tt s' → pool_reach b s'
| pr_wake s r s' :
    pool_reach true s → alib_thread_wait_resume s = Ret r s' →
    pool_reach false s'.

(** What the threads and the loops of [alib_thread_end] leave alone:
    [thread_list], the number of threads, and the threads already joined. *)
Definition join_frame (s s' : state) : Prop :=
  thread_list s' = thread_list s ∧
  length (threads s') = length (threads s) ∧
  (∀ tid, threads s !! tid = Some WJoined → threads s' !! tid = Some WJoined).

(** The calls of submitted functions in a trace. *)
Definition is_call (ev : event) : bool :=
  match ev with
  | EvCall _ _ => true
  | _ => false
  end.

Definition calls (t : list event) : list event := List.filter is_call t.


(** A client that submits the tasks of a list one after the other and
    collects what [alib_go] returns. *)
Fixpoint submit_all (e : os_env) (tasks : list (fn_ptr * void_ptr))
  : M (list Z) :=
  match tasks with
  | [] => ret []
  | (func, arg) :: tasks' =>
      r <- alib_go e func arg;;
      rs <- submit_all e tasks';;
      ret (r :: rs)
  end.

(** * Proofs *)

(** ** Symbolic execution *)

Ltac unfold_prims_in H :=
  unfold sem_init, sem_post, sem_wait, sem_getvalue, sem_destroy,
    pthread_mutex_init, pthread_mutex_lock, pthread_mutex_unlock,
    pthread_mutex_destroy, pthread_cond_init, pthread_cond_wait,
    pthread_cond_wait_resume, pthread_cond_signal, pthread_cond_destroy,
    pthread_create, usleep, set_status, store, emit, incr, decr,
    array_read, array_write, undef, blocks, diverges, modify, get, ret, bind
    in H.

Ltac unfold_prims :=
  unfold sem_init, sem_post, sem_wait, sem_getvalue, sem_destroy,
    pthread_mutex_init, pthread_mutex_lock, pthread_mutex_unlock,
    pthread_mutex_destroy, pthread_cond_init, pthread_cond_wait,
    pthread_cond_wait_resume, pthread_cond_signal, pthread_cond_destroy,
    pthread_create, usleep, set_status, store, emit, incr, decr,
    array_read, array_write, undef, blocks, diverges, modify, get, ret, bind.

(** Computes field updates and field reads; on a state whose fields are
    spelled out the result is again a state whose fields are spelled out. *)
Ltac flat_in H :=
  cbv beta iota delta [set_mutex get_mutex set_nthreads set_alib_thread_quit
    set_thread_list set_func_list set_arg_list set_func_mutex set_nfuncs
    set_sem set_nrunning set_nrunning_mutex set_idle_condition set_threads
    set_trace nthreads alib_thread_quit thread_list func_list arg_list
    func_mutex nfuncs sem nrunning nrunning_mutex idle_condition threads
    trace final] in H.

Ltac flat :=
  cbv beta iota delta [set_mutex get_mutex set_nthreads set_alib_thread_quit
    set_thread_list set_func_list set_arg_list set_func_mutex set_nfuncs
    set_sem set_nrunning set_nrunning_mutex set_idle_condition set_threads
    set_trace nthreads alib_thread_quit thread_list func_list arg_list
    func_mutex nfuncs sem nrunning nrunning_mutex idle_condition threads
    trace final].

(** Runs the computation in hypothesis [H], on a state whose fields are
    spelled out, splitting on the innermost scrutinee of each test. *)
Ltac run_in H :=
  unfold_prims_in H; flat_in H; try discriminate H;
  repeat (match type of H with
          | context [match ?x with _ => _ end] =>
              lazymatch x with
              | context [match _ with _ => _ end] => fail
              | _ => destruct x eqn:?
              end
          end; flat_in H; try discriminate; try congruence).

(** The same for the computation in the goal. *)
Ltac run :=
  unfold_prims; flat;
  repeat (match goal with
          | |- context [match ?x with _ => _ end] =>
              lazymatch x with
              | context [match _ with _ => _ end] => fail
              | _ => destruct x eqn:?
              end
          end; flat; try congruence; try lia).

(** ** Relations that every step of a computation respects *)

Section Respects.
Variable R : state → state → Prop.
Hypothesis R_refl : ∀ s, R s s.
Hypothesis R_trans : ∀ s1 s2 s3, R s1 s2 → R s2 s3 → R s1 s3.

Definition respects {A} (m : M A) : Prop :=
  ∀ s s', final (m s) = Some s' → R s s'.

Lemma respects_bind {A B} (m : M A) (k : A → M B) :
  respects m → (∀ a, respects (k a)) → respects (bind m k).
Proof using R_trans.
  intros Hm Hk s s'. unfold bind.
  destruct (m s) as [a s1| | s1|] eqn:E; simpl; try discriminate.
  - intros H. apply R_trans with s1.
    + apply Hm. rewrite E. reflexivity.
    + apply (Hk a). exact H.
  - intros [= <-]. apply Hm. rewrite E. reflexivity.
Qed.

Lemma respects_ret {A} (a : A) : respects (ret a).
Proof using R_refl. intros s s' [= <-]. apply R_refl. Qed.

Lemma respects_get : respects get.
Proof using R_refl. intros s s' [= <-]. apply R_refl. Qed.

Lemma respects_undef {A} u : respects (@undef A u).
Proof. intros s s' [=]. Qed.

Lemma respects_diverges {A} : respects (@diverges A).
Proof. intros s s' [=]. Qed.

Lemma respects_blocks {A} : respects (@blocks A).
Proof using R_refl. intros s s' [= <-]. apply R_refl. Qed.
End Respects.

(** Walks through the binds and the tests of a computation, and leaves one
    goal for each call it makes. *)
Ltac respects_walk Hrefl Htrans :=
  repeat match goal with
    | |- respects _ (ret _) => apply (respects_ret _ Hrefl)
    | |- respects _ get => apply (respects_get _ Hrefl)
    | |- respects _ blocks => apply (respects_blocks _ Hrefl)
    | |- respects _ (undef _) => apply respects_undef
    | |- respects _ diverges => apply respects_diverges
    | |- respects _ (bind _ _) =>
        apply (respects_bind _ Htrans); [ | intros ? ]
    | |- respects _ (if ?b then _ else _) => destruct b
    | |- respects _ (let (_, _) := ?p in _) => destruct p
    | |- respects _ (match ?x with _ => _ end) => destruct x
    end.

(** A call respects a relation that only looks at what the call leaves
    alone. *)
Ltac respects_leaf tac :=
  let s := fresh "s" in
  let s' := fresh "s'" in
  let H := fresh "H" in
  intros s s' H; destruct s; run_in H;
  try (injection H as <-); flat; try tac.

Lemma in_bounds_spec i : in_bounds i = true ↔ 0 ≤ i < MAX_THREADS.
Proof. unfold in_bounds. rewrite andb_true_iff. lia. Qed.

(** ** [alib_go] *)

(** What a successful [alib_go] requires and what it leaves. *)
Lemma alib_go_success e func arg s s' :
  alib_go e func arg s = Ret 0 s' →
  nthreads s ≠ 0 ∧ 0 ≤ nfuncs s < MAX_THREADS ∧ nrunning s < INT_MAX ∧
  func_mutex s = MxFree ∧ nrunning_mutex s = MxFree ∧ e GoPost = 0 ∧
  ∃ v, sem s = Some v ∧
  s' = {| nthreads := nthreads s;
          alib_thread_quit := alib_thread_quit s;
          thread_list := thread_list s;
          func_list := <[Z.to_nat (nfuncs s) := func]> (func_list s);
          arg_list := <[Z.to_nat (nfuncs s) := arg]> (arg_list s);
          func_mutex := MxFree;
          nfuncs := nfuncs s + 1;
          sem := Some (v + 1);
          nrunning := nrunning s + 1;
          nrunning_mutex := MxFree;
          idle_condition := idle_condition s;
          threads := threads s;
          trace := trace s ++
            [EvLock FuncMutex; EvStore Gfunc_list; EvStore Garg_list;
             EvStore Gnfuncs; EvUnlock FuncMutex; EvLock NrunningMutex;
             EvStore Gnrunning; EvUnlock NrunningMutex; EvSemPost] |}.
Proof.
  destruct s. unfold alib_go. intros H. run_in H.
  injection H as <-. subst. flat.
  apply in_bounds_spec in Heqb1.
  repeat split; try lia.
  eexists; split; [ reflexivity | ].
  rewrite <- !app_assoc. reflexivity.
Qed.

(** [alib_go] returns 2 in exactly one situation. *)
Lemma alib_go_saturated e func arg s :
  (∃ s', alib_go e func arg s = Ret 2 s') ↔
  nthreads s ≠ 0 ∧ nfuncs s = MAX_THREADS.
Proof.
  split.
  - intros [s' H]. destruct s. unfold alib_go in H. run_in H. flat. lia.
  - intros [Hn Hf]. exists s. destruct s. unfold alib_go.
    flat_in Hn. flat_in Hf. run.
Qed.

(** [alib_go] returns 1 exactly when [nthreads] is zero, and changes nothing
    then. *)
Lemma alib_go_not_initialized e func arg s :
  nthreads s = 0 → alib_go e func arg s = Ret 1 s.
Proof.
  destruct s. intros Hn. flat_in Hn. unfold alib_go. run.
Qed.

Lemma alib_go_initialized e func arg s s' :
  nthreads s ≠ 0 → alib_go e func arg s ≠ Ret 1 s'.
Proof.
  destruct s. intros Hn H. flat_in Hn. unfold alib_go in H. run_in H. lia.
Qed.

(** [alib_go] pushes at most one entry, and none on a full stack. *)
Lemma alib_go_nfuncs e func arg s s' :
  final (alib_go e func arg s) = Some s' →
  nfuncs s' = nfuncs s ∨ (nfuncs s < MAX_THREADS ∧ nfuncs s' = nfuncs s + 1).
Proof.
  destruct s. unfold alib_go. intros H.
  run_in H; injection H as <-; flat; auto.
  all: apply in_bounds_spec in Heqb1; right; lia.
Qed.

(** ** The function stack never grows outside [alib_go] *)

Lemma nfuncs_le_refl s : nfuncs_le s s.
Proof. unfold nfuncs_le. lia. Qed.

Lemma nfuncs_le_trans s1 s2 s3 :
  nfuncs_le s1 s2 → nfuncs_le s2 s3 → nfuncs_le s1 s3.
Proof. unfold nfuncs_le. lia. Qed.

Ltac nfuncs_walk := respects_walk nfuncs_le_refl nfuncs_le_trans.
Ltac nfuncs_leaf := respects_leaf ltac:(unfold nfuncs_le; flat; lia).

Lemma thread_idle_step_nfuncs tid : respects nfuncs_le (thread_idle_step tid).
Proof. unfold thread_idle_step. nfuncs_leaf. Qed.

Lemma run_thread_nfuncs fuel tid : respects nfuncs_le (run_thread fuel tid).
Proof.
  induction fuel as [|fuel IH]; simpl.
  - nfuncs_walk.
  - nfuncs_walk; first [ apply IH | apply thread_idle_step_nfuncs ].
Qed.

Lemma pthread_join_nfuncs e c fuel h :
  respects nfuncs_le (pthread_join e c fuel h).
Proof.
  unfold pthread_join.
  nfuncs_walk; first [ apply run_thread_nfuncs | nfuncs_leaf ].
Qed.

Lemma end_post_loop_nfuncs e todo :
  ∀ i, respects nfuncs_le (end_post_loop e todo i).
Proof.
  induction todo as [|todo IH]; intros i; simpl.
  - nfuncs_walk.
  - nfuncs_walk; first [ apply IH | nfuncs_leaf ].
Qed.

Lemma end_join_loop_nfuncs e todo :
  ∀ i, respects nfuncs_le (end_join_loop e todo i).
Proof.
  induction todo as [|todo IH]; intros i; simpl.
  - nfuncs_walk.
  - nfuncs_walk;
      first [ apply IH | apply pthread_join_nfuncs | nfuncs_leaf ].
Qed.

Lemma alib_thread_end_nfuncs e : respects nfuncs_le (alib_thread_end e).
Proof.
  unfold alib_thread_end.
  nfuncs_walk;
    first [ apply end_post_loop_nfuncs | apply end_join_loop_nfuncs
          | nfuncs_leaf ].
Qed.

Lemma init_create_loop_nfuncs e todo :
  ∀ i, respects nfuncs_le (init_create_loop e todo i).
Proof.
  induction todo as [|todo IH]; intros i; simpl.
  - nfuncs_walk.
  - nfuncs_walk; first [ apply IH | nfuncs_leaf ].
Qed.

Lemma init_poll_loop_nfuncs e fuel :
  ∀ k, respects nfuncs_le (init_poll_loop e fuel k).
Proof.
  induction fuel as [|fuel IH]; intros k; simpl.
  - nfuncs_walk.
  - nfuncs_walk; first [ apply IH | nfuncs_leaf ].
Qed.

Lemma alib_thread_init_nfuncs e fuel max_conc :
  respects nfuncs_le (alib_thread_init e fuel max_conc).
Proof.
  unfold alib_thread_init.
  nfuncs_walk;
    first [ apply init_create_loop_nfuncs | apply init_poll_loop_nfuncs
          | nfuncs_leaf ].
Qed.

Lemma alib_thread_wait_nfuncs : respects nfuncs_le alib_thread_wait.
Proof. unfold alib_thread_wait. nfuncs_walk; nfuncs_leaf. Qed.

Lemma alib_thread_wait_resume_nfuncs :
  respects nfuncs_le alib_thread_wait_resume.
Proof. unfold alib_thread_wait_resume. nfuncs_walk; nfuncs_leaf. Qed.

(** Every call of the API keeps the function stack within the array. *)
Lemma run_call_nfuncs e c s s' :
  final (run_call e c s) = Some s' →
  nfuncs s ≤ MAX_THREADS → nfuncs s' ≤ MAX_THREADS.
Proof.
  destruct c as [fuel n|func arg| |]; simpl; intros H Hle.
  - apply alib_thread_init_nfuncs in H. unfold nfuncs_le in H. lia.
  - apply alib_go_nfuncs in H. lia.
  - apply alib_thread_wait_nfuncs in H. unfold nfuncs_le in H. lia.
  - apply alib_thread_end_nfuncs in H. unfold nfuncs_le in H. lia.
Qed.

Lemma step_nfuncs s s' : step s s' → nfuncs s' ≤ nfuncs s.
Proof.
  intros [tid s1 s2 H|s1 s2 r H].
  - apply (thread_idle_step_nfuncs tid). rewrite H. reflexivity.
  - apply alib_thread_wait_resume_nfuncs. rewrite H. reflexivity.
Qed.

Lemma reachable_nfuncs s : reachable s → nfuncs s ≤ MAX_THREADS.
Proof.
  induction 1 as [|e c s r s' _ IH H|e c s s' _ IH H|s s' _ IH H].
  - vm_compute. discriminate.
  - apply (run_call_nfuncs e c s); [ rewrite H; reflexivity | exact IH ].
  - apply (run_call_nfuncs e c s); [ rewrite H; reflexivity | exact IH ].
  - apply step_nfuncs in H. lia.
Qed.

(** ** What [alib_thread_end] leaves alone *)

Lemma end_frame_refl s : end_frame s s.
Proof. unfold end_frame. auto. Qed.

Lemma end_frame_trans s1 s2 s3 :
  end_frame s1 s2 → end_frame s2 s3 → end_frame s1 s3.
Proof.
  unfold end_frame. intros [H1 H2] [H3 H4]. split; [ congruence | ].
  intros Hq. destruct (H2 Hq) as [H5 H6].
  destruct H4 as [H7 H8]; [ congruence | ]. split; congruence.
Qed.

Ltac end_frame_walk := respects_walk end_frame_refl end_frame_trans.

Ltac end_frame_leaf :=
  respects_leaf
    ltac:(unfold end_frame; flat; split; [ reflexivity | ];
          let Hq := fresh "Hq" in
          intros Hq;
          first [ split; reflexivity
                | exfalso; apply Hq;
                  repeat match goal with
                         | E : (_ =? _) = true |- _ => apply Z.eqb_eq in E
                         end; congruence ]).

Lemma final_bind_ret {A B} (m : M A) (k : A → M B) s a s1 :
  m s = Ret a s1 → final (bind m k s) = final (k a s1).
Proof. intros H. unfold bind. rewrite H. reflexivity. Qed.

Lemma thread_idle_step_end_frame tid :
  respects end_frame (thread_idle_step tid).
Proof. unfold thread_idle_step. end_frame_leaf. Qed.

Lemma run_thread_end_frame fuel tid :
  respects end_frame (run_thread fuel tid).
Proof.
  induction fuel as [|fuel IH]; simpl.
  - end_frame_walk.
  - end_frame_walk; first [ apply IH | apply thread_idle_step_end_frame ].
Qed.

Lemma pthread_join_end_frame e c fuel h :
  respects end_frame (pthread_join e c fuel h).
Proof.
  unfold pthread_join.
  end_frame_walk; first [ apply run_thread_end_frame | end_frame_leaf ].
Qed.

Lemma end_post_loop_end_frame e todo :
  ∀ i, respects end_frame (end_post_loop e todo i).
Proof.
  induction todo as [|todo IH]; intros i; simpl.
  - end_frame_walk.
  - end_frame_walk; first [ apply IH | end_frame_leaf ].
Qed.

Lemma end_join_loop_end_frame e todo :
  ∀ i, respects end_frame (end_join_loop e todo i).
Proof.
  induction todo as [|todo IH]; intros i; simpl.
  - end_frame_walk.
  - end_frame_walk;
      first [ apply IH | apply pthread_join_end_frame | end_frame_leaf ].
Qed.

(** [alib_thread_end] never writes [nthreads], leaves the quit message set,
    and never touches [func_mutex]. *)
Lemma alib_thread_end_frame e s s' :
  final (alib_thread_end e s) = Some s' →
  nthreads s' = nthreads s ∧ alib_thread_quit s' = 1 ∧
  func_mutex s' = func_mutex s.
Proof.
  intros H. unfold alib_thread_end in H.
  rewrite (final_bind_ret _ _ s tt
             (set_trace (trace s ++ [EvStore Galib_thread_quit])
                (set_alib_thread_quit 1 s))) in H by reflexivity.
  match type of H with
  | final (?k ?s1) = _ =>
      assert (Hr : respects end_frame k)
  end.
  { end_frame_walk;
      first [ apply end_post_loop_end_frame | apply end_join_loop_end_frame
            | end_frame_leaf ]. }
  apply Hr in H. destruct H as [Hn Hq]. simpl in Hn, Hq.
  destruct Hq as [Hq Hm]; [ discriminate | ]. auto.
Qed.

(** The two loops of [alib_thread_end] leave the function only with the
    codes 1 and 2. *)
Lemma end_post_loop_code e todo :
  ∀ i s c s', end_post_loop e todo i s = Ret (Some c) s' → c = 1.
Proof.
  induction todo as [|todo IH]; intros i s c s' H; simpl in H.
  - discriminate.
  - unfold bind in H.
    destruct (sem_post e (EndPost i) s) as [rc s1| | |]; try discriminate.
    destruct (rc =? 0).
    + exact (IH _ _ _ _ H).
    + injection H as <- _. reflexivity.
Qed.

Lemma end_join_loop_code e todo :
  ∀ i s c s', end_join_loop e todo i s = Ret (Some c) s' → c = 2.
Proof.
  induction todo as [|todo IH]; intros i s c s' H; simpl in H.
  - discriminate.
  - unfold bind at 1 2 in H. unfold get in H.
    destruct (array_read Gthread_list (thread_list s) i s) as [h s1| | |];
      try discriminate.
    unfold bind in H.
    destruct (pthread_join e (EndJoin i) join_fuel h s1) as [rc s2| | |];
      try discriminate.
    destruct (rc =? 0).
    + exact (IH _ _ _ _ H).
    + injection H as <- _. reflexivity.
Qed.

(** What a successful [alib_thread_end] has released. *)
Lemma alib_thread_end_success e s s' :
  alib_thread_end e s = Ret 0 s' →
  nrunning s' = 0 ∧ sem s' = None ∧ nrunning_mutex s' = MxInvalid ∧
  idle_condition s' = CvInvalid.
Proof.
  intros H. unfold alib_thread_end in H. destruct s. run_in H.
  - injection H as -> _.
    match goal with
    | E : end_post_loop _ _ _ _ = _ |- _ =>
        apply end_post_loop_code in E; discriminate E
    end.
  - injection H as -> _.
    match goal with
    | E : end_join_loop _ _ _ _ = _ |- _ =>
        apply end_join_loop_code in E; discriminate E
    end.
  - injection H as <-. cbn. auto.
Qed.

(** ** [alib_thread_init] *)

Ltac norm :=
  flat; repeat (change (0 =? 0) with true; cbv beta iota).

Lemma spawn_one_fields i s :
  nthreads (spawn_one i s) = nthreads s + 1 ∧
  threads (spawn_one i s) = threads s ++ [WSemWait] ∧
  alib_thread_quit (spawn_one i s) = alib_thread_quit s ∧
  func_list (spawn_one i s) = func_list s ∧
  arg_list (spawn_one i s) = arg_list s ∧
  func_mutex (spawn_one i s) = func_mutex s ∧
  nfuncs (spawn_one i s) = nfuncs s ∧
  sem (spawn_one i s) = sem s ∧
  nrunning (spawn_one i s) = nrunning s ∧
  nrunning_mutex (spawn_one i s) = nrunning_mutex s ∧
  idle_condition (spawn_one i s) = idle_condition s.
Proof. repeat split. Qed.

(** What [todo] successful iterations change: the count and the threads. *)
Lemma spawn_many_fields todo :
  ∀ i s,
    nthreads (spawn_many todo i s) = nthreads s + Z.of_nat todo ∧
    threads (spawn_many todo i s) = threads s ++ replicate todo WSemWait ∧
    alib_thread_quit (spawn_many todo i s) = alib_thread_quit s ∧
    func_list (spawn_many todo i s) = func_list s ∧
    arg_list (spawn_many todo i s) = arg_list s ∧
    func_mutex (spawn_many todo i s) = func_mutex s ∧
    nfuncs (spawn_many todo i s) = nfuncs s ∧
    sem (spawn_many todo i s) = sem s ∧
    nrunning (spawn_many todo i s) = nrunning s ∧
    nrunning_mutex (spawn_many todo i s) = nrunning_mutex s ∧
    idle_condition (spawn_many todo i s) = idle_condition s.
Proof.
  induction todo as [|todo IH]; intros i s.
  - simpl. rewrite app_nil_r, Z.add_0_r. repeat split.
  - cbn [spawn_many].
    destruct (IH (i + 1) (spawn_one i s))
      as (H1 & H2 & H3 & H4 & H5 & H6 & H7 & H8 & H9 & H10 & H11).
    rewrite H1, H2, H3, H4, H5, H6, H7, H8, H9, H10, H11.
    cbn [replicate]. rewrite cons_middle, app_assoc.
    repeat split. simpl. lia.
Qed.

(** One iteration of the loop in which [pthread_create] succeeds. *)
Lemma init_create_loop_S e todo i s :
  in_bounds i = true → e (InitCreate i) = 0 → nthreads s < INT_MAX →
  init_create_loop e (S todo) i s =
  init_create_loop e todo (i + 1) (spawn_one i s).
Proof.
  intros Hb He Hn. destruct s. cbn [init_create_loop].
  unfold_prims. unfold spawn_one. flat_in Hn. flat.
  rewrite Hb, He. norm.
  apply Z.ltb_lt in Hn. rewrite Hn. norm.
  rewrite <- !app_assoc. reflexivity.
Qed.

(** The iteration of index [MAX_THREADS] stores outside [thread_list]. *)
Lemma init_create_loop_at_max e todo s :
  init_create_loop e (S todo) MAX_THREADS s =
  Undef (OutOfBounds Gthread_list MAX_THREADS).
Proof. reflexivity. Qed.

Lemma init_create_loop_ok e todo :
  ∀ i s,
    0 ≤ i → i + Z.of_nat todo ≤ MAX_THREADS → nthreads s ≤ i →
    (∀ j, i ≤ j < i + Z.of_nat todo → e (InitCreate j) = 0) →
    init_create_loop e todo i s = Ret None (spawn_many todo i s).
Proof.
  induction todo as [|todo IH]; intros i s Hi Hmax Hn He.
  - reflexivity.
  - rewrite init_create_loop_S.
    + cbn [spawn_many]. apply IH; try lia.
      * simpl. lia.
      * intros j Hj. apply He. lia.
    + apply in_bounds_spec. lia.
    + apply He. lia.
    + unfold MAX_THREADS, INT_MAX in *. lia.
Qed.

Lemma init_create_loop_oob e todo :
  ∀ i s,
    0 ≤ i ≤ MAX_THREADS → MAX_THREADS < i + Z.of_nat todo → nthreads s ≤ i →
    (∀ j, i ≤ j < MAX_THREADS → e (InitCreate j) = 0) →
    init_create_loop e todo i s =
    Undef (OutOfBounds Gthread_list MAX_THREADS).
Proof.
  induction todo as [|todo IH]; intros i s Hi Hmax Hn He.
  - lia.
  - destruct (decide (i = MAX_THREADS)) as [->|Hne].
    + apply init_create_loop_at_max.
    + rewrite init_create_loop_S.
      * apply IH; try lia.
        -- simpl. lia.
        -- intros j Hj. apply He. lia.
      * apply in_bounds_spec. lia.
      * apply He. lia.
      * unfold MAX_THREADS, INT_MAX in *. lia.
Qed.

(** The polling loop leaves at its first round when the semaphore holds
    nothing. *)
Lemma init_poll_loop_idle e fuel k s v :
  sem s = Some v → v ≤ 0 → e (InitGetvalue k) = 0 →
  init_poll_loop e (S fuel) k s =
  Ret 0 (set_trace (trace s ++ [EvSemGetvalue]) s).
Proof.
  intros Hs Hv He. destruct s. cbn [init_poll_loop].
  unfold_prims. flat_in Hs. flat. rewrite Hs. norm. rewrite He. norm.
  apply Z.leb_le in Hv. rewrite Hv. reflexivity.
Qed.

(** The first statements of [alib_thread_init], up to the loop. *)
Lemma alib_thread_init_unfold e fuel max_conc s :
  nthreads s = 0 → resources_ok e →
  alib_thread_init e fuel max_conc s =
  match init_create_loop e (Z.to_nat max_conc) 0 (init_resources s) with
  | Ret (Some c) s' => Ret c s'
  | Ret None s' => init_poll_loop e fuel 0 s'
  | Undef u => Undef u
  | Blocks s' => Blocks s'
  | Diverges => Diverges
  end.
Proof.
  intros Hn (H1 & H2 & H3 & H4). destruct s. flat_in Hn. subst.
  unfold alib_thread_init, init_resources. unfold_prims. flat.
  rewrite H1. norm. rewrite H2. norm. rewrite H3. norm. rewrite H4. norm.
  rewrite <- !app_assoc. cbn [app].
  destruct (init_create_loop _ _ _ _) as [[c|] s'| | |]; reflexivity.
Qed.

(** A successful [alib_thread_init]: it returns 0. *)
Lemma alib_thread_init_ok e fuel max_conc s :
  nthreads s = 0 → resources_ok e → max_conc ≤ MAX_THREADS →
  (∀ j, 0 ≤ j < max_conc → e (InitCreate j) = 0) →
  e (InitGetvalue 0) = 0 →
  alib_thread_init e (S fuel) max_conc s = Ret 0 (init_done max_conc s).
Proof.
  intros Hn Hr Hmax Hc Hg.
  rewrite alib_thread_init_unfold by assumption.
  rewrite init_create_loop_ok.
  - apply init_poll_loop_idle with 0; [ | lia | exact Hg ].
    destruct (spawn_many_fields (Z.to_nat max_conc) 0 (init_resources s))
      as (_ & _ & _ & _ & _ & _ & _ & H8 & _).
    rewrite H8. reflexivity.
  - lia.
  - unfold MAX_THREADS in *. lia.
  - simpl. lia.
  - intros j Hj. apply Hc. lia.
Qed.

(** The fields of the state in which a successful [alib_thread_init]
    returns. *)
Lemma init_done_fields max_conc s :
  nthreads s = 0 →
  nthreads (init_done max_conc s) = Z.max 0 max_conc ∧
  threads (init_done max_conc s) =
    threads s ++ replicate (Z.to_nat max_conc) WSemWait ∧
  alib_thread_quit (init_done max_conc s) = 0 ∧
  func_mutex (init_done max_conc s) = MxFree ∧
  nfuncs (init_done max_conc s) = nfuncs s ∧
  sem (init_done max_conc s) = Some 0 ∧
  nrunning (init_done max_conc s) = nrunning s ∧
  nrunning_mutex (init_done max_conc s) = MxFree ∧
  idle_condition (init_done max_conc s) = CvReady.
Proof.
  intros Hn. unfold init_done. cbn.
  destruct (spawn_many_fields (Z.to_nat max_conc) 0 (init_resources s))
    as (H1 & H2 & H3 & H4 & H5 & H6 & H7 & H8 & H9 & H10 & H11).
  rewrite H1, H2, H3, H6, H7, H8, H9, H10, H11. cbn. rewrite Hn.
  repeat split. lia.
Qed.

(** [alib_thread_init] on a started pool: it clears the quit message,
    returns -1, and does nothing else. *)
Lemma alib_thread_init_started e fuel max_conc s :
  nthreads s ≠ 0 →
  alib_thread_init e fuel max_conc s =
  Ret (-1) (set_trace (trace s ++ [EvStore Galib_thread_quit])
              (set_alib_thread_quit 0 s)).
Proof.
  intros Hn. destruct s. flat_in Hn.
  unfold alib_thread_init. unfold_prims. flat.
  apply Z.eqb_neq in Hn. rewrite Hn. reflexivity.
Qed.

(** ** The arrays keep their size *)

Lemma same_lengths_refl s : same_lengths s s.
Proof. unfold same_lengths. auto. Qed.

Lemma same_lengths_trans s1 s2 s3 :
  same_lengths s1 s2 → same_lengths s2 s3 → same_lengths s1 s3.
Proof. unfold same_lengths. intros (?&?&?) (?&?&?). repeat split; congruence. Qed.

Ltac lengths_walk := respects_walk same_lengths_refl same_lengths_trans.
Ltac lengths_leaf :=
  respects_leaf
    ltac:(unfold same_lengths; flat; rewrite ?length_insert; auto).

Lemma thread_idle_step_lengths tid :
  respects same_lengths (thread_idle_step tid).
Proof. unfold thread_idle_step. lengths_leaf. Qed.

Lemma run_thread_lengths fuel tid : respects same_lengths (run_thread fuel tid).
Proof.
  induction fuel as [|fuel IH]; simpl.
  - lengths_walk.
  - lengths_walk; first [ apply IH | apply thread_idle_step_lengths ].
Qed.

Lemma pthread_join_lengths e c fuel h :
  respects same_lengths (pthread_join e c fuel h).
Proof.
  unfold pthread_join.
  lengths_walk; first [ apply run_thread_lengths | lengths_leaf ].
Qed.

Lemma end_post_loop_lengths e todo :
  ∀ i, respects same_lengths (end_post_loop e todo i).
Proof.
  induction todo as [|todo IH]; intros i; simpl.
  - lengths_walk.
  - lengths_walk; first [ apply IH | lengths_leaf ].
Qed.

Lemma end_join_loop_lengths e todo :
  ∀ i, respects same_lengths (end_join_loop e todo i).
Proof.
  induction todo as [|todo IH]; intros i; simpl.
  - lengths_walk.
  - lengths_walk;
      first [ apply IH | apply pthread_join_lengths | lengths_leaf ].
Qed.

Lemma alib_thread_end_lengths e : respects same_lengths (alib_thread_end e).
Proof.
  unfold alib_thread_end.
  lengths_walk;
    first [ apply end_post_loop_lengths | apply end_join_loop_lengths
          | lengths_leaf ].
Qed.

Lemma init_create_loop_lengths e todo :
  ∀ i, respects same_lengths (init_create_loop e todo i).
Proof.
  induction todo as [|todo IH]; intros i; simpl.
  - lengths_walk.
  - lengths_walk; first [ apply IH | lengths_leaf ].
Qed.

Lemma init_poll_loop_lengths e fuel :
  ∀ k, respects same_lengths (init_poll_loop e fuel k).
Proof.
  induction fuel as [|fuel IH]; intros k; simpl.
  - lengths_walk.
  - lengths_walk; first [ apply IH | lengths_leaf ].
Qed.

Lemma alib_thread_init_lengths e fuel max_conc :
  respects same_lengths (alib_thread_init e fuel max_conc).
Proof.
  unfold alib_thread_init.
  lengths_walk;
    first [ apply init_create_loop_lengths | apply init_poll_loop_lengths
          | lengths_leaf ].
Qed.

Lemma alib_thread_wait_lengths : respects same_lengths alib_thread_wait.
Proof. unfold alib_thread_wait. lengths_walk; lengths_leaf. Qed.

Lemma alib_thread_wait_resume_lengths :
  respects same_lengths alib_thread_wait_resume.
Proof. unfold alib_thread_wait_resume. lengths_walk; lengths_leaf. Qed.

Lemma alib_go_lengths e func arg : respects same_lengths (alib_go e func arg).
Proof. unfold alib_go. lengths_leaf. Qed.

(** In every state a program can reach, the three arrays have
    [MAX_THREADS] elements. *)
Lemma reachable_lengths s :
  reachable s →
  length (thread_list s) = Z.to_nat MAX_THREADS ∧
  length (func_list s) = Z.to_nat MAX_THREADS ∧
  length (arg_list s) = Z.to_nat MAX_THREADS.
Proof.
  assert (Hcall : ∀ e c, respects same_lengths (run_call e c)).
  { intros e [fuel n|func arg| |]; simpl.
    - apply alib_thread_init_lengths.
    - apply alib_go_lengths.
    - apply alib_thread_wait_lengths.
    - apply alib_thread_end_lengths. }
  induction 1 as [|e c s r s' _ IH H|e c s s' _ IH H|s s' _ IH H].
  - cbn. rewrite !length_replicate. auto.
  - destruct (Hcall e c s s') as (H1 & H2 & H3);
      [ rewrite H; reflexivity | ].
    destruct IH as (?&?&?). repeat split; congruence.
  - destruct (Hcall e c s s') as (H1 & H2 & H3);
      [ rewrite H; reflexivity | ].
    destruct IH as (?&?&?). repeat split; congruence.
  - assert (Hs : same_lengths s s').
    { destruct H as [tid s1 s2 H|s1 s2 r H].
      - apply (thread_idle_step_lengths tid). rewrite H. reflexivity.
      - apply alib_thread_wait_resume_lengths. rewrite H. reflexivity. }
    destruct Hs as (?&?&?). destruct IH as (?&?&?).
    repeat split; congruence.
Qed.

(** ** The idling threads and the caller of [alib_thread_wait] *)

(** An idling thread never increments the running count. *)
Lemma thread_idle_step_nrunning tid :
  respects nrunning_le (thread_idle_step tid).
Proof.
  unfold thread_idle_step.
  respects_leaf ltac:(unfold nrunning_le; flat; lia).
Qed.

(** With nothing in the semaphore, a thread that is not inside a function
    cannot make a step. *)
Lemma thread_idle_step_no_unit tid s s' :
  sem s = Some 0 →
  (∀ f a, threads s !! tid ≠ Some (WRunning f a)) →
  thread_idle_step tid s ≠ Ret tt s'.
Proof.
  intros Hs Hw H. destruct s. flat_in Hs. flat_in Hw. subst.
  unfold thread_idle_step in H. run_in H.
  all: eapply Hw; eassumption.
Qed.

(** [alib_thread_wait] suspends its caller whenever it can run at all. *)
Lemma alib_thread_wait_never_returns s r s' : alib_thread_wait s ≠ Ret r s'.
Proof. intros H. destruct s. unfold alib_thread_wait in H. run_in H. Qed.

Lemma alib_thread_wait_suspends s :
  nrunning_mutex s = MxFree → idle_condition s = CvReady →
  alib_thread_wait s =
  Blocks (set_idle_condition CvWaiting
            (set_trace (trace s ++ [EvLock NrunningMutex; EvCondWait]) s)).
Proof.
  intros Hm Hc. destruct s. flat_in Hm. flat_in Hc. subst.
  unfold alib_thread_wait. unfold_prims. flat.
  destruct (decide (MainThread = MainThread)); [ | congruence ].
  rewrite <- !app_assoc. reflexivity.
Qed.

(** A waiter that has not been signalled does not return. *)
Lemma alib_thread_wait_resume_waiting s r s' :
  idle_condition s = CvWaiting → alib_thread_wait_resume s ≠ Ret r s'.
Proof.
  intros Hc H. destruct s. flat_in Hc. subst.
  unfold alib_thread_wait_resume in H. run_in H.
Qed.

(** ** Failure codes of [alib_thread_init] *)

Lemma alib_thread_init_sem_fails e fuel max_conc s :
  nthreads s = 0 → e InitSem ≠ 0 →
  ∃ s', alib_thread_init e fuel max_conc s = Ret (-1) s'.
Proof.
  intros Hn He. destruct s. flat_in Hn. subst.
  unfold alib_thread_init. unfold_prims. flat. norm.
  apply Z.eqb_neq in He. repeat (rewrite He; norm). eexists. reflexivity.
Qed.

Lemma alib_thread_init_func_mutex_fails e fuel max_conc s :
  nthreads s = 0 → e InitSem = 0 → e (InitMutex FuncMutex) ≠ 0 →
  ∃ s', alib_thread_init e fuel max_conc s = Ret (-3) s'.
Proof.
  intros Hn H1 He. destruct s. flat_in Hn. subst.
  unfold alib_thread_init. unfold_prims. flat. norm.
  rewrite H1. norm.
  apply Z.eqb_neq in He. repeat (rewrite He; norm).
  eexists. reflexivity.
Qed.

Lemma alib_thread_init_nrunning_mutex_fails e fuel max_conc s :
  nthreads s = 0 → e InitSem = 0 → e (InitMutex FuncMutex) = 0 →
  e (InitMutex NrunningMutex) ≠ 0 →
  ∃ s', alib_thread_init e fuel max_conc s = Ret (-4) s'.
Proof.
  intros Hn H1 H2 He. destruct s. flat_in Hn. subst.
  unfold alib_thread_init. unfold_prims. flat. norm.
  rewrite H1. norm. rewrite H2. norm.
  apply Z.eqb_neq in He. repeat (rewrite He; norm).
  eexists. reflexivity.
Qed.

Lemma alib_thread_init_cond_fails e fuel max_conc s :
  nthreads s = 0 → e InitSem = 0 → e (InitMutex FuncMutex) = 0 →
  e (InitMutex NrunningMutex) = 0 → e InitCond ≠ 0 →
  ∃ s', alib_thread_init e fuel max_conc s = Ret (-5) s'.
Proof.
  intros Hn H1 H2 H3 He. destruct s. flat_in Hn. subst.
  unfold alib_thread_init. unfold_prims. flat. norm.
  rewrite H1. norm. rewrite H2. norm. rewrite H3. norm.
  apply Z.eqb_neq in He. repeat (rewrite He; norm).
  eexists. reflexivity.
Qed.

Lemma alib_thread_init_create_fails e fuel max_conc s :
  nthreads s = 0 → resources_ok e → 0 < max_conc → e (InitCreate 0) ≠ 0 →
  ∃ s', alib_thread_init e fuel max_conc s = Ret (-6) s'.
Proof.
  intros Hn Hr Hpos He. rewrite alib_thread_init_unfold by assumption.
  destruct (Z.to_nat max_conc) as [|todo] eqn:E; [ lia | ].
  destruct s. cbn [init_create_loop]. unfold init_resources.
  unfold_prims. flat. change (in_bounds 0) with true. norm.
  apply Z.eqb_neq in He. repeat (rewrite He; norm).
  eexists. reflexivity.
Qed.

(** ** The bound on the steps of a joined thread is enough *)

Lemma lookup_insert_same {A} (l : list A) i x y :
  l !! i = Some x → <[i:=y]> l !! i = Some y.
Proof.
  intros H. apply list_lookup_insert_eq. eapply lookup_lt_Some. exact H.
Qed.

Ltac quit_set_contra :=
  repeat match goal with
    | E : (_ =? 0) = true |- _ => apply Z.eqb_eq in E
    | E1 : ?l !! ?i = Some _, E2 : <[?i:=?y]> ?l !! ?i = _ |- _ =>
        rewrite (lookup_insert_same l i _ y E1) in E2
    end;
  try congruence.

(** Once the quit message is set, a thread returns from [thread_idle] within
    [join_fuel] steps, unless it is stuck or runs into undefined
    behaviour. *)
Lemma run_thread_quit_set tid s :
  alib_thread_quit s ≠ 0 → run_thread join_fuel tid s ≠ Diverges.
Proof.
  intros Hq H. destruct s. flat_in Hq.
  unfold join_fuel in H. cbn [run_thread] in H.
  unfold thread_idle_step in H. run_in H.
  all: quit_set_contra.
Qed.

Lemma pthread_join_quit_set e c h s :
  alib_thread_quit s ≠ 0 → pthread_join e c join_fuel h s ≠ Diverges.
Proof.
  intros Hq H. unfold pthread_join in H. unfold bind at 1 in H.
  unfold get in H. destruct h as [|tid]; [ discriminate | ].
  assert (Hrun : ∀ s1, alib_thread_quit s1 = alib_thread_quit s →
    (emit (EvJoin (Thread tid));;;
     if e c =? 0
     then run_thread join_fuel tid;;; set_status tid WJoined;;; ret 0
     else ret (e c)) s1 ≠ Diverges).
  { intros s1 Hs1 H1. unfold bind at 1 in H1. unfold emit, modify in H1.
    destruct (e c =? 0); [ | discriminate ].
    unfold bind at 1 in H1.
    destruct (run_thread join_fuel tid _) as [[] s2| | |] eqn:E;
      try discriminate.
    revert E. apply run_thread_quit_set. cbn. congruence. }
  destruct (threads s !! tid) as [[| | |]|];
    first [ discriminate | exact (Hrun s eq_refl H) ].
Qed.

Lemma end_post_loop_returns e todo :
  ∀ i s, end_post_loop e todo i s ≠ Diverges.
Proof.
  induction todo as [|todo IH]; intros i s H; simpl in H.
  - discriminate.
  - unfold bind in H.
    destruct (sem_post e (EndPost i) s) as [rc s1| | |] eqn:E;
      try discriminate.
    + destruct (rc =? 0); [ exact (IH _ _ H) | discriminate ].
    + destruct s. run_in E.
Qed.

Lemma end_join_loop_returns e todo :
  ∀ i s, alib_thread_quit s ≠ 0 → end_join_loop e todo i s ≠ Diverges.
Proof.
  induction todo as [|todo IH]; intros i s Hq H; simpl in H.
  - discriminate.
  - unfold bind at 1 2 in H. unfold get in H.
    destruct (array_read Gthread_list (thread_list s) i s)
      as [h s1| | |] eqn:E1.
    + assert (s1 = s) as ->.
      { unfold array_read in E1.
        destruct (in_bounds i); [ | discriminate ].
        destruct (thread_list s !! Z.to_nat i); [ | discriminate ].
        injection E1 as _ <-. reflexivity. }
      unfold bind in H.
      destruct (pthread_join e (EndJoin i) join_fuel h s)
        as [rc s2| | |] eqn:E2; try discriminate.
      * destruct (rc =? 0); [ | discriminate ].
        revert H. apply IH.
        destruct (pthread_join_end_frame e (EndJoin i) join_fuel h s s2)
          as [_ Hf]; [ rewrite E2; reflexivity | ].
        destruct (Hf Hq) as [Hf1 _]. congruence.
      * revert E2. apply pthread_join_quit_set. exact Hq.
    + discriminate.
    + discriminate.
    + unfold array_read in E1.
      destruct (in_bounds i); [ | discriminate ].
      destruct (thread_list s !! Z.to_nat i); discriminate.
Qed.

(** [alib_thread_end] never reaches the bound of the model. *)
Lemma alib_thread_end_returns e s : alib_thread_end e s ≠ Diverges.
Proof.
  intros H. destruct s. unfold alib_thread_end in H. run_in H.
  all: match goal with
       | E : end_post_loop _ _ _ _ = Diverges |- _ =>
           exact (end_post_loop_returns _ _ _ _ E)
       | E1 : end_post_loop _ _ _ ?s1 = Ret None ?s2,
         E2 : end_join_loop _ _ _ ?s2 = Diverges |- _ =>
           revert E2; apply end_join_loop_returns;
           destruct (end_post_loop_end_frame _ _ _ s1 s2
                       ltac:(rewrite E1; reflexivity)) as [_ Hf];
           destruct Hf as [Hf _]; [ cbn; discriminate | ];
           rewrite Hf; cbn; discriminate
       end.
Qed.

(** ** Two runs of the pool *)

(** The wait the code is written for: a task is submitted, the caller waits,
    the idling thread takes the task, runs it, brings the count back to zero
    and signals; the caller then returns from [alib_thread_wait] with 0. *)
Example wait_returns_when_the_last_task_ends :
  ∃ s1 s2 s3 s4 s5,
    alib_go all_ok 7 8 (init_done 1 initial_state) = Ret 0 s1 ∧
    alib_thread_wait s1 = Blocks s2 ∧
    thread_idle_step 0 s2 = Ret tt s3 ∧
    threads s3 = [WRunning 7 8] ∧
    thread_idle_step 0 s3 = Ret tt s4 ∧
    nrunning s4 = 0 ∧ idle_condition s4 = CvSignalled ∧
    alib_thread_wait_resume s4 = Ret 0 s5 ∧
    nrunning_mutex s5 = MxFree ∧ idle_condition s5 = CvReady.
Proof.
  eexists _, _, _, _, _.
  split; [ vm_compute; reflexivity | ].
  split; [ vm_compute; reflexivity | ].
  split; [ vm_compute; reflexivity | ].
  split; [ reflexivity | ].
  split; [ vm_compute; reflexivity | ].
  split; [ reflexivity | ]. split; [ reflexivity | ].
  split; [ vm_compute; reflexivity | ].
  split; reflexivity.
Qed.

(** The same task, but the thread has finished it before the caller waits:
    the signal was sent when nobody waited, and the caller of
    [alib_thread_wait] is suspended with the count at zero in a state from
    which nothing can happen. *)
Example wait_misses_an_earlier_signal :
  ∃ s1 s2 s3 s4,
    alib_go all_ok 7 8 (init_done 1 initial_state) = Ret 0 s1 ∧
    thread_idle_step 0 s1 = Ret tt s2 ∧
    thread_idle_step 0 s2 = Ret tt s3 ∧
    nrunning s3 = 0 ∧
    alib_thread_wait s3 = Blocks s4 ∧
    nrunning s4 = 0 ∧
    ∀ s5, ¬ step s4 s5.
Proof.
  eexists _, _, _, _.
  split; [ vm_compute; reflexivity | ].
  split; [ vm_compute; reflexivity | ].
  split; [ vm_compute; reflexivity | ].
  split; [ reflexivity | ].
  split; [ vm_compute; reflexivity | ].
  split; [ reflexivity | ].
  intros s5 Hstep.
  inversion Hstep as [tid sa sb Hidle|sa sb r Hres]; subst.
  - revert Hidle. apply thread_idle_step_no_unit; [ reflexivity | ].
    intros f a Hl. cbn in Hl.
    destruct tid as [|tid]; cbn in Hl; discriminate Hl.
  - revert Hres. apply alib_thread_wait_resume_waiting. reflexivity.
Qed.

(** * The claims *)

Lemma resources_ok_all_ok : resources_ok all_ok.
Proof. repeat split. Qed.

(** C1 (the code departs from the claim).  The claim: for every N in
    [1, MAX], [alib_thread_init(N)] followed at once by [alib_thread_wait()]
    returns.  The code: [alib_thread_wait] calls [pthread_cond_wait] without
    looking at [nrunning].  After a successful [alib_thread_init(max_conc)],
    with every library call succeeding, the running count is zero, the call
    of [alib_thread_wait] suspends its caller with the count still zero, and
    from the state it is suspended in nothing can happen any more: every
    idling thread waits for the semaphore, which holds nothing, and nobody
    is left to signal the condition.  The call never returns. *)
Theorem wait_after_init_never_returns (max_conc : Z) :
  1 ≤ max_conc ≤ MAX_THREADS →
  alib_thread_init all_ok 1 max_conc initial_state =
    Ret 0 (init_done max_conc initial_state) ∧
  nrunning (init_done max_conc initial_state) = 0 ∧
  ∃ s2,
    alib_thread_wait (init_done max_conc initial_state) = Blocks s2 ∧
    nrunning s2 = 0 ∧
    ∀ s3, ¬ step s2 s3.
Proof.
  intros Hn.
  destruct (init_done_fields max_conc initial_state eq_refl)
    as (H1 & H2 & H3 & H4 & H5 & H6 & H7 & H8 & H9).
  split; [ | split ].
  - apply alib_thread_init_ok; try reflexivity.
    + apply resources_ok_all_ok.
    + lia.
  - exact H7.
  - eexists. split; [ apply alib_thread_wait_suspends; assumption | ].
    split; [ exact H7 | ].
    intros s3 Hstep.
    inversion Hstep as [tid sa sb Hidle|sa sb r Hres]; subst.
    + revert Hidle. apply thread_idle_step_no_unit.
      * exact H6.
      * intros f a Hl.
        change (threads (init_done max_conc initial_state) !! tid =
                Some (WRunning f a)) in Hl.
        rewrite H2 in Hl.
        apply lookup_replicate in Hl as [Hl _]. discriminate Hl.
    + revert Hres. apply alib_thread_wait_resume_waiting. reflexivity.
Qed.

Lemma wait_after_init_never_returns_witness :
  1 ≤ 1 ≤ MAX_THREADS ∧
  (alib_thread_init all_ok 1 1 initial_state =
     Ret 0 (init_done 1 initial_state) ∧
   nrunning (init_done 1 initial_state) = 0 ∧
   ∃ s2,
     alib_thread_wait (init_done 1 initial_state) = Blocks s2 ∧
     nrunning s2 = 0 ∧
     ∀ s3, ¬ step s2 s3).
Proof.
  split.
  - unfold MAX_THREADS. lia.
  - apply (wait_after_init_never_returns 1). unfold MAX_THREADS. lia.
Defined.

(** C2 (the code departs from the claim).  The claim: after a successful
    [alib_thread_end], [alib_go] fails with the not-initialised code 1 and
    [alib_thread_init] succeeds.  The code: [alib_thread_end] never writes
    [nthreads].  After a successful [alib_thread_end] of a started pool,
    [nthreads] is what it was, so [alib_go] neither returns 1 nor succeeds,
    and every [alib_thread_init] returns -1. *)
Theorem end_leaves_pool_started e s s' :
  nthreads s ≠ 0 →
  alib_thread_end e s = Ret 0 s' →
  nthreads s' = nthreads s ∧
  (∀ e' func arg s'', alib_go e' func arg s' ≠ Ret 1 s'') ∧
  (∀ e' func arg s'', alib_go e' func arg s' ≠ Ret 0 s'') ∧
  (∀ e' fuel max_conc,
     ∃ s'', alib_thread_init e' fuel max_conc s' = Ret (-1) s'').
Proof.
  intros Hn Hend.
  destruct (alib_thread_end_frame e s s') as (H1 & H2 & H3);
    [ rewrite Hend; reflexivity | ].
  destruct (alib_thread_end_success e s s' Hend) as (H4 & H5 & H6 & H7).
  split; [ exact H1 | ].
  split; [ | split ].
  - intros e' func arg s''. apply alib_go_initialized. congruence.
  - intros e' func arg s'' Hgo. apply alib_go_success in Hgo.
    destruct Hgo as (_ & _ & _ & _ & Hm & _). congruence.
  - intros e' fuel max_conc. eexists.
    apply alib_thread_init_started. congruence.
Qed.

Lemma end_leaves_pool_started_witness :
  nthreads (init_done 1 initial_state) ≠ 0 ∧
  alib_thread_end all_ok (init_done 1 initial_state) =
    Ret 0 (state_of (alib_thread_end all_ok (init_done 1 initial_state))) ∧
  ∃ s'',
    alib_thread_init all_ok 1 1
      (state_of (alib_thread_end all_ok (init_done 1 initial_state))) =
    Ret (-1) s''.
Proof.
  assert (H1 : nthreads (init_done 1 initial_state) ≠ 0)
    by (vm_compute; discriminate).
  assert (H2 : alib_thread_end all_ok (init_done 1 initial_state) =
    Ret 0 (state_of (alib_thread_end all_ok (init_done 1 initial_state))))
    by (vm_compute; reflexivity).
  split; [ exact H1 | split; [ exact H2 | ] ].
  apply (end_leaves_pool_started all_ok _ _ H1 H2).
Defined.

(** C3, as the spec states it, fails: after [alib_thread_init(2)] two tasks
    are submitted, so that the function stack holds N = 2 entries; the third
    [alib_go] does not return the saturation code 2 but succeeds, and the
    stack then holds three entries, more than N. *)
Lemma saturation_at_N_counterexample :
  alib_thread_init all_ok 1 2 initial_state =
    Ret 0 (init_done 2 initial_state) ∧
  ∃ s1 s2 s3,
    alib_go all_ok 11 12 (init_done 2 initial_state) = Ret 0 s1 ∧
    alib_go all_ok 21 22 s1 = Ret 0 s2 ∧
    nfuncs s2 = 2 ∧
    alib_go all_ok 31 32 s2 = Ret 0 s3 ∧
    nfuncs s3 = 3.
Proof.
  split; [ vm_compute; reflexivity | ].
  eexists _, _, _.
  split; [ vm_compute; reflexivity | ].
  split; [ vm_compute; reflexivity | ].
  split; [ reflexivity | ].
  split; [ vm_compute; reflexivity | reflexivity ].
Qed.

(** C3, amended.  In every state a program can reach, the function stack
    holds at most [MAX_THREADS] = 1024 entries, whatever was passed to
    [alib_thread_init]; and [alib_go] returns the saturation code 2 exactly
    when the pool is started and the stack holds [MAX_THREADS] entries. *)
Theorem saturation_at_MAX_THREADS s :
  reachable s →
  nfuncs s ≤ MAX_THREADS ∧
  ∀ e func arg,
    (∃ s', alib_go e func arg s = Ret 2 s') ↔
    nthreads s ≠ 0 ∧ nfuncs s = MAX_THREADS.
Proof.
  intros Hr. split.
  - apply reachable_nfuncs. exact Hr.
  - intros e func arg. apply alib_go_saturated.
Qed.

Lemma saturation_at_MAX_THREADS_witness :
  reachable (init_done 2 initial_state) ∧
  nfuncs (init_done 2 initial_state) ≤ MAX_THREADS ∧
  ∀ e func arg,
    (∃ s', alib_go e func arg (init_done 2 initial_state) = Ret 2 s') ↔
    nthreads (init_done 2 initial_state) ≠ 0 ∧
    nfuncs (init_done 2 initial_state) = MAX_THREADS.
Proof.
  assert (Hr : reachable (init_done 2 initial_state)).
  { apply (reach_return all_ok (CallInit 1 2) initial_state 0).
    - apply reach_initial.
    - vm_compute. reflexivity. }
  split; [ exact Hr | ].
  apply (saturation_at_MAX_THREADS (init_done 2 initial_state) Hr).
Defined.

(** C4 (the code departs from the claim and from its own comment, "Return
    value: number of actual threads created").  When every library call
    succeeds, [alib_thread_init(max_conc)] creates [max_conc] threads, counts
    them in [nthreads], and returns 0, not their number. *)
Theorem init_returns_zero_on_success e fuel max_conc s :
  nthreads s = 0 →
  resources_ok e →
  1 ≤ max_conc ≤ MAX_THREADS →
  (∀ j, 0 ≤ j < max_conc → e (InitCreate j) = 0) →
  e (InitGetvalue 0) = 0 →
  ∃ s',
    alib_thread_init e (S fuel) max_conc s = Ret 0 s' ∧
    nthreads s' = max_conc ∧
    threads s' = threads s ++ replicate (Z.to_nat max_conc) WSemWait.
Proof.
  intros Hn Hr Hmax Hc Hg. exists (init_done max_conc s).
  destruct (init_done_fields max_conc s Hn) as (H1 & H2 & _).
  split; [ | split ].
  - apply alib_thread_init_ok; try assumption. lia.
  - rewrite H1. lia.
  - exact H2.
Qed.

Lemma init_returns_zero_on_success_witness :
  ∃ s',
    alib_thread_init all_ok 1 4 initial_state = Ret 0 s' ∧
    nthreads s' = 4 ∧
    threads s' = threads initial_state ++ replicate (Z.to_nat 4) WSemWait.
Proof.
  apply (init_returns_zero_on_success all_ok 0 4 initial_state).
  - reflexivity.
  - repeat split.
  - unfold MAX_THREADS. lia.
  - intros j _. reflexivity.
  - reflexivity.
Defined.

(** C5, as the spec states it, fails.  A pool of one thread is started and
    [alib_thread_end] is called; its first [sem_post] fails, so it returns 1
    with the quit message set and the thread still idling.  Calling
    [alib_thread_init] on this started pool returns -1 and clears the quit
    message: the state has changed.  And -1 is also what a fresh
    [alib_thread_init] returns when [sem_init] fails: the code is not
    distinct from those of the creation failures. *)
Lemma init_on_started_pool_counterexample :
  alib_thread_init all_ok 1 1 initial_state =
    Ret 0 (init_done 1 initial_state) ∧
  ∃ s1 s2 s3,
    alib_thread_end end_post_fails (init_done 1 initial_state) = Ret 1 s1 ∧
    nthreads s1 = 1 ∧ threads s1 = [WSemWait] ∧
    alib_thread_quit s1 = 1 ∧
    alib_thread_init all_ok 1 1 s1 = Ret (-1) s2 ∧
    alib_thread_quit s2 = 0 ∧
    alib_thread_init sem_init_fails 1 1 initial_state = Ret (-1) s3.
Proof.
  split; [ vm_compute; reflexivity | ].
  eexists _, _, _.
  split; [ vm_compute; reflexivity | ].
  split; [ reflexivity | ].
  split; [ reflexivity | ].
  split; [ reflexivity | ].
  split; [ vm_compute; reflexivity | ].
  split; [ reflexivity | vm_compute; reflexivity ].
Qed.

(** C5, amended.  Calling [alib_thread_init] on a started pool
    ([nthreads] not zero) fails at once with a negative code, before any
    library call; it clears the quit message and leaves every other piece of
    the pool's state as it was. *)
Theorem init_on_started_pool e fuel max_conc s :
  nthreads s ≠ 0 →
  ∃ rc s',
    alib_thread_init e fuel max_conc s = Ret rc s' ∧
    rc < 0 ∧
    alib_thread_quit s' = 0 ∧
    trace s' = trace s ++ [EvStore Galib_thread_quit] ∧
    nthreads s' = nthreads s ∧
    thread_list s' = thread_list s ∧
    func_list s' = func_list s ∧
    arg_list s' = arg_list s ∧
    func_mutex s' = func_mutex s ∧
    nfuncs s' = nfuncs s ∧
    sem s' = sem s ∧
    nrunning s' = nrunning s ∧
    nrunning_mutex s' = nrunning_mutex s ∧
    idle_condition s' = idle_condition s ∧
    threads s' = threads s.
Proof.
  intros Hn. eexists _, _.
  split; [ apply alib_thread_init_started; exact Hn | ].
  split; [ lia | ]. repeat split.
Qed.

Lemma init_on_started_pool_witness :
  nthreads (init_done 1 initial_state) ≠ 0 ∧
  ∃ rc s',
    alib_thread_init all_ok 1 1 (init_done 1 initial_state) = Ret rc s' ∧
    rc < 0 ∧
    alib_thread_quit s' = 0 ∧
    trace s' =
      trace (init_done 1 initial_state) ++ [EvStore Galib_thread_quit].
Proof.
  assert (H1 : nthreads (init_done 1 initial_state) ≠ 0)
    by (vm_compute; discriminate).
  split; [ exact H1 | ].
  destruct (init_on_started_pool all_ok 1 1 (init_done 1 initial_state) H1)
    as (rc & s' & H2 & H3 & H4 & H5 & _).
  exists rc, s'. auto.
Defined.

(** C6.  When [alib_go] returns 0, the running count is already one more than
    it was when the call began.  The events of the call show where: the store
    to [nrunning] lies between the lock and the unlock of [nrunning_mutex],
    before the [sem_post] that lets a thread take the task.  No step of an
    idling thread ever increments the count. *)
Theorem go_counts_before_it_returns e func arg s s' :
  alib_go e func arg s = Ret 0 s' →
  nrunning s' = nrunning s + 1 ∧
  trace s' =
    trace s ++
    [EvLock FuncMutex; EvStore Gfunc_list; EvStore Garg_list;
     EvStore Gnfuncs; EvUnlock FuncMutex;
     EvLock NrunningMutex; EvStore Gnrunning; EvUnlock NrunningMutex;
     EvSemPost] ∧
  ∀ tid t t', thread_idle_step tid t = Ret tt t' → nrunning t' ≤ nrunning t.
Proof.
  intros H. apply alib_go_success in H.
  destruct H as (_ & _ & _ & _ & _ & _ & v & _ & ->).
  split; [ reflexivity | ]. split; [ reflexivity | ].
  intros tid t t' Ht.
  apply (thread_idle_step_nrunning tid). rewrite Ht. reflexivity.
Qed.

Lemma go_counts_before_it_returns_witness :
  alib_go all_ok 7 8 (init_done 1 initial_state) =
    Ret 0 (state_of (alib_go all_ok 7 8 (init_done 1 initial_state))) ∧
  nrunning (state_of (alib_go all_ok 7 8 (init_done 1 initial_state))) =
    nrunning (init_done 1 initial_state) + 1.
Proof.
  assert (H : alib_go all_ok 7 8 (init_done 1 initial_state) =
    Ret 0 (state_of (alib_go all_ok 7 8 (init_done 1 initial_state))))
    by (vm_compute; reflexivity).
  split; [ exact H | ].
  exact (proj1 (go_counts_before_it_returns all_ok 7 8 _ _ H)).
Defined.

(** C7 (the code departs from the claim).  The claim: a successful
    [alib_thread_end] resets the running count and releases the semaphore,
    both mutexes and the condition.  The code destroys the semaphore,
    [nrunning_mutex] and the condition, and has no [pthread_mutex_destroy]
    for [func_mutex]: after a successful [alib_thread_end] the running count
    is zero, those three objects are no longer valid, and [func_mutex] is
    what it was before the call. *)
Theorem end_keeps_func_mutex e s s' :
  alib_thread_end e s = Ret 0 s' →
  nrunning s' = 0 ∧
  sem s' = None ∧
  nrunning_mutex s' = MxInvalid ∧
  idle_condition s' = CvInvalid ∧
  func_mutex s' = func_mutex s.
Proof.
  intros H.
  destruct (alib_thread_end_success e s s' H) as (H1 & H2 & H3 & H4).
  destruct (alib_thread_end_frame e s s') as (_ & _ & H5);
    [ rewrite H; reflexivity | ].
  auto.
Qed.

Lemma end_keeps_func_mutex_witness :
  alib_thread_end all_ok (init_done 1 initial_state) =
    Ret 0 (state_of (alib_thread_end all_ok (init_done 1 initial_state))) ∧
  func_mutex (init_done 1 initial_state) = MxFree ∧
  func_mutex (state_of (alib_thread_end all_ok (init_done 1 initial_state))) =
    func_mutex (init_done 1 initial_state).
Proof.
  assert (H : alib_thread_end all_ok (init_done 1 initial_state) =
    Ret 0 (state_of (alib_thread_end all_ok (init_done 1 initial_state))))
    by (vm_compute; reflexivity).
  split; [ exact H | ]. split; [ reflexivity | ].
  apply (end_keeps_func_mutex all_ok _ _ H).
Defined.

(** C8.  [alib_thread_init] does not compare [max_conc] with [MAX_THREADS].
    On a pool that is not started, when the four objects are created and
    [pthread_create] succeeds for the indices 0 to [MAX_THREADS]-1, every
    [max_conc] above [MAX_THREADS] makes the loop hand [thread_list +
    MAX_THREADS], which is outside the array, to [pthread_create]. *)
Theorem init_overruns_thread_list e fuel max_conc s :
  MAX_THREADS < max_conc →
  nthreads s = 0 →
  resources_ok e →
  (∀ j, 0 ≤ j < MAX_THREADS → e (InitCreate j) = 0) →
  alib_thread_init e fuel max_conc s =
  Undef (OutOfBounds Gthread_list MAX_THREADS).
Proof.
  intros Hmax Hn Hr Hc.
  rewrite alib_thread_init_unfold by assumption.
  rewrite init_create_loop_oob; try assumption.
  - reflexivity.
  - unfold MAX_THREADS. lia.
  - lia.
  - simpl. lia.
Qed.

Lemma init_overruns_thread_list_witness :
  alib_thread_init all_ok 1 1025 initial_state =
  Undef (OutOfBounds Gthread_list MAX_THREADS).
Proof.
  apply (init_overruns_thread_list all_ok 1 1025 initial_state).
  - unfold MAX_THREADS. lia.
  - reflexivity.
  - repeat split.
  - intros j _. reflexivity.
Defined.

(** Submitting to a pool that is not started fails with 1 every time. *)
Lemma submit_all_not_initialized e tasks s :
  nthreads s = 0 →
  submit_all e tasks s = Ret (replicate (length tasks) 1) s.
Proof.
  intros Hn. induction tasks as [|[func arg] tasks IH]; [ reflexivity | ].
  cbn [submit_all length replicate]. unfold bind at 1.
  rewrite alib_go_not_initialized by exact Hn.
  unfold bind at 1. rewrite IH. reflexivity.
Qed.

(** C9.  On a pool that is not started, when the four objects are created,
    [alib_thread_init(0)] returns 0 and creates no thread; [nthreads] stays
    zero, so every later [alib_go] returns the not-initialised code 1 and
    changes nothing, however many are made. *)
Theorem init_zero_leaves_pool_unstarted e fuel s :
  nthreads s = 0 →
  resources_ok e →
  e (InitGetvalue 0) = 0 →
  ∃ s',
    alib_thread_init e (S fuel) 0 s = Ret 0 s' ∧
    nthreads s' = 0 ∧
    threads s' = threads s ∧
    (∀ e' func arg, alib_go e' func arg s' = Ret 1 s') ∧
    (∀ e' tasks,
       submit_all e' tasks s' = Ret (replicate (length tasks) 1) s').
Proof.
  intros Hn Hr Hg. exists (init_done 0 s).
  destruct (init_done_fields 0 s Hn) as (H1 & H2 & _).
  split; [ | split; [ exact H1 | split; [ | split ] ] ].
  - apply alib_thread_init_ok; try assumption.
    + unfold MAX_THREADS. lia.
    + intros j Hj. lia.
  - rewrite H2. apply app_nil_r.
  - intros e' func arg. apply alib_go_not_initialized. exact H1.
  - intros e' tasks. apply submit_all_not_initialized. exact H1.
Qed.

Lemma init_zero_leaves_pool_unstarted_witness :
  ∃ s',
    alib_thread_init all_ok 1 0 initial_state = Ret 0 s' ∧
    nthreads s' = 0 ∧
    threads s' = threads initial_state ∧
    (∀ e' func arg, alib_go e' func arg s' = Ret 1 s') ∧
    (∀ e' tasks,
       submit_all e' tasks s' = Ret (replicate (length tasks) 1) s').
Proof.
  apply (init_zero_leaves_pool_unstarted all_ok 0 initial_state).
  - reflexivity.
  - repeat split.
  - reflexivity.
Defined.

(** C10.  A successful [alib_go(func, arg)] changes the slot of index
    [nfuncs] of [func_list] and of [arg_list], which receive [func] and
    [arg]; [nfuncs] and [nrunning], which grow by one; and the semaphore,
    which is posted once.  Every other slot, [thread_list], [nthreads], the
    quit message, the two mutexes, the condition and the threads are as
    before the call. *)
Theorem go_frame e func arg s s' :
  alib_go e func arg s = Ret 0 s' →
  0 ≤ nfuncs s < MAX_THREADS ∧
  func_list s' = <[Z.to_nat (nfuncs s) := func]> (func_list s) ∧
  arg_list s' = <[Z.to_nat (nfuncs s) := arg]> (arg_list s) ∧
  (reachable s →
   func_list s' !! Z.to_nat (nfuncs s) = Some func ∧
   arg_list s' !! Z.to_nat (nfuncs s) = Some arg) ∧
  (∀ j, j ≠ Z.to_nat (nfuncs s) →
        func_list s' !! j = func_list s !! j ∧
        arg_list s' !! j = arg_list s !! j) ∧
  nfuncs s' = nfuncs s + 1 ∧
  nrunning s' = nrunning s + 1 ∧
  (∃ v, sem s = Some v ∧ sem s' = Some (v + 1)) ∧
  trace s' =
    trace s ++
    [EvLock FuncMutex; EvStore Gfunc_list; EvStore Garg_list;
     EvStore Gnfuncs; EvUnlock FuncMutex;
     EvLock NrunningMutex; EvStore Gnrunning; EvUnlock NrunningMutex;
     EvSemPost] ∧
  thread_list s' = thread_list s ∧
  nthreads s' = nthreads s ∧
  alib_thread_quit s' = alib_thread_quit s ∧
  func_mutex s' = func_mutex s ∧
  nrunning_mutex s' = nrunning_mutex s ∧
  idle_condition s' = idle_condition s ∧
  threads s' = threads s.
Proof.
  intros H. apply alib_go_success in H.
  destruct H as (_ & Hb & _ & Hfm & Hrm & _ & v & Hv & ->).
  cbn [func_list arg_list nfuncs nrunning sem trace thread_list nthreads
       alib_thread_quit func_mutex nrunning_mutex idle_condition threads].
  split; [ exact Hb | ].
  split; [ reflexivity | ]. split; [ reflexivity | ].
  split.
  { intros Hr. destruct (reachable_lengths s Hr) as (_ & Hf & Ha).
    split; apply list_lookup_insert_eq; unfold MAX_THREADS in *; lia. }
  split.
  { intros j Hj. split; apply list_lookup_insert_ne; congruence. }
  split; [ reflexivity | ]. split; [ reflexivity | ].
  split; [ exists v; auto | ].
  split; [ reflexivity | ].
  repeat split; congruence.
Qed.

Lemma go_frame_witness :
  alib_go all_ok 7 8 (init_done 1 initial_state) =
    Ret 0 (state_of (alib_go all_ok 7 8 (init_done 1 initial_state))) ∧
  func_list (state_of (alib_go all_ok 7 8 (init_done 1 initial_state))) =
    <[Z.to_nat (nfuncs (init_done 1 initial_state)) := 7]>
      (func_list (init_done 1 initial_state)).
Proof.
  assert (H : alib_go all_ok 7 8 (init_done 1 initial_state) =
    Ret 0 (state_of (alib_go all_ok 7 8 (init_done 1 initial_state))))
    by (vm_compute; reflexivity).
  split; [ exact H | ].
  exact (proj1 (proj2 (go_frame all_ok 7 8 _ _ H))).
Defined.

(** * Further properties of the code *)

(** ** [alib_thread_init]: the ways it fails *)

(** An iteration of the loop in which [pthread_create] fails. *)
Lemma init_create_loop_fails_here e todo i s :
  in_bounds i = true → e (InitCreate i) ≠ 0 →
  init_create_loop e (S todo) i s =
  Ret (Some (-6)) (set_trace (trace s ++ [EvCreate i]) s).
Proof.
  intros Hb He. destruct s. cbn [init_create_loop].
  unfold_prims. flat. rewrite Hb. norm.
  apply Z.eqb_neq in He. repeat (rewrite He; norm). reflexivity.
Qed.

(** [n] iterations succeed and the next one fails. *)
Lemma init_create_loop_fails_after e n :
  ∀ todo i s,
    (n < todo)%nat → 0 ≤ i → i + Z.of_nat n < MAX_THREADS →
    nthreads s ≤ i →
    (∀ j, i ≤ j < i + Z.of_nat n → e (InitCreate j) = 0) →
    e (InitCreate (i + Z.of_nat n)) ≠ 0 →
    init_create_loop e todo i s =
    Ret (Some (-6))
      (set_trace (trace (spawn_many n i s) ++ [EvCreate (i + Z.of_nat n)])
         (spawn_many n i s)).
Proof.
  induction n as [|n IH]; intros todo i s Hlt Hi Hmax Hn Hok Hfail;
    (destruct todo as [|todo]; [ lia | ]).
  - cbn [spawn_many]. rewrite Z.add_0_r in *.
    apply init_create_loop_fails_here; [ | exact Hfail ].
    apply in_bounds_spec. lia.
  - rewrite init_create_loop_S.
    + cbn [spawn_many].
      replace (i + Z.of_nat (S n)) with (i + 1 + Z.of_nat n) in * by lia.
      apply IH; try lia.
      * simpl. lia.
      * intros j Hj. apply Hok. lia.
    + apply in_bounds_spec. lia.
    + apply Hok. lia.
    + unfold MAX_THREADS, INT_MAX in *. lia.
Qed.

(** X1.  When [pthread_create] fails at iteration [k] of the loop, after [k]
    successful iterations, [alib_thread_init] returns -6 and undoes nothing:
    the [k] threads already created keep idling, [nthreads] is [k], and the
    semaphore, both mutexes and the condition stay initialised.  For k > 0
    the pool is thus started although the call reported an error. *)
Theorem init_create_failure_leaves_partial_pool e fuel max_conc s k :
  nthreads s = 0 →
  resources_ok e →
  0 ≤ k < max_conc →
  k < MAX_THREADS →
  (∀ j, 0 ≤ j < k → e (InitCreate j) = 0) →
  e (InitCreate k) ≠ 0 →
  ∃ s',
    alib_thread_init e fuel max_conc s = Ret (-6) s' ∧
    nthreads s' = k ∧
    threads s' = threads s ++ replicate (Z.to_nat k) WSemWait ∧
    sem s' = Some 0 ∧
    func_mutex s' = MxFree ∧
    nrunning_mutex s' = MxFree ∧
    idle_condition s' = CvReady.
Proof.
  intros Hn Hr Hk Hmax Hok Hfail.
  rewrite alib_thread_init_unfold by assumption.
  rewrite (init_create_loop_fails_after e (Z.to_nat k)).
  - eexists. split; [ reflexivity | ].
    destruct (spawn_many_fields (Z.to_nat k) 0 (init_resources s))
      as (H1 & H2 & H3 & H4 & H5 & H6 & H7 & H8 & H9 & H10 & H11).
    cbn [nthreads threads sem func_mutex nrunning_mutex idle_condition
         set_trace].
    rewrite H1, H2, H6, H8, H10, H11. cbn. rewrite Hn.
    repeat split. lia.
  - lia.
  - lia.
  - lia.
  - simpl. lia.
  - intros j Hj. apply Hok. lia.
  - replace (0 + Z.of_nat (Z.to_nat k)) with k by lia. exact Hfail.
Qed.

Lemma init_create_failure_leaves_partial_pool_witness :
  ∃ s',
    alib_thread_init (λ c, match c with InitCreate 2 => 11 | _ => 0 end)
      1 4 initial_state = Ret (-6) s' ∧
    nthreads s' = 2 ∧
    threads s' = threads initial_state ++ replicate (Z.to_nat 2) WSemWait ∧
    sem s' = Some 0 ∧
    func_mutex s' = MxFree ∧
    nrunning_mutex s' = MxFree ∧
    idle_condition s' = CvReady.
Proof.
  apply (init_create_failure_leaves_partial_pool
           (λ c, match c with InitCreate 2 => 11 | _ => 0 end)
           1 4 initial_state 2).
  - reflexivity.
  - repeat split.
  - lia.
  - unfold MAX_THREADS. lia.
  - intros j Hj.
    assert (j = 0 ∨ j = 1) as [-> | ->] by lia; reflexivity.
  - discriminate.
Defined.

(** X2.  On a pool that is not started, a failure to create one of the four
    objects makes [alib_thread_init] return at once, with -1 for the
    semaphore, -3 for [func_mutex], -4 for [nrunning_mutex] and -5 for the
    condition.  No thread is created and [nthreads] stays zero, and the
    objects created before the failing one are left initialised: nothing is
    destroyed on the way out. *)
Theorem init_object_failure_codes e fuel max_conc s :
  nthreads s = 0 →
  (e InitSem ≠ 0 →
   ∃ s', alib_thread_init e fuel max_conc s = Ret (-1) s' ∧
         nthreads s' = 0 ∧ threads s' = threads s ∧
         sem s' = sem s ∧ func_mutex s' = func_mutex s ∧
         nrunning_mutex s' = nrunning_mutex s ∧
         idle_condition s' = idle_condition s) ∧
  (e InitSem = 0 → e (InitMutex FuncMutex) ≠ 0 →
   ∃ s', alib_thread_init e fuel max_conc s = Ret (-3) s' ∧
         nthreads s' = 0 ∧ threads s' = threads s ∧
         sem s' = Some 0 ∧ func_mutex s' = func_mutex s ∧
         nrunning_mutex s' = nrunning_mutex s ∧
         idle_condition s' = idle_condition s) ∧
  (e InitSem = 0 → e (InitMutex FuncMutex) = 0 →
   e (InitMutex NrunningMutex) ≠ 0 →
   ∃ s', alib_thread_init e fuel max_conc s = Ret (-4) s' ∧
         nthreads s' = 0 ∧ threads s' = threads s ∧
         sem s' = Some 0 ∧ func_mutex s' = MxFree ∧
         nrunning_mutex s' = nrunning_mutex s ∧
         idle_condition s' = idle_condition s) ∧
  (e InitSem = 0 → e (InitMutex FuncMutex) = 0 →
   e (InitMutex NrunningMutex) = 0 → e InitCond ≠ 0 →
   ∃ s', alib_thread_init e fuel max_conc s = Ret (-5) s' ∧
         nthreads s' = 0 ∧ threads s' = threads s ∧
         sem s' = Some 0 ∧ func_mutex s' = MxFree ∧
         nrunning_mutex s' = MxFree ∧
         idle_condition s' = idle_condition s).
Proof.
  intros Hn. destruct s. flat_in Hn. subst.
  unfold alib_thread_init. unfold_prims. flat. norm.
  split; [ | split; [ | split ] ].
  - intros He. apply Z.eqb_neq in He. repeat (rewrite He; norm).
    eexists. split; [ reflexivity | ]. repeat split.
  - intros H1 He. rewrite H1. norm.
    apply Z.eqb_neq in He. repeat (rewrite He; norm).
    eexists. split; [ reflexivity | ]. repeat split.
  - intros H1 H2 He. rewrite H1. norm. rewrite H2. norm.
    apply Z.eqb_neq in He. repeat (rewrite He; norm).
    eexists. split; [ reflexivity | ]. repeat split.
  - intros H1 H2 H3 He.
    rewrite H1. norm. rewrite H2. norm. rewrite H3. norm.
    apply Z.eqb_neq in He. repeat (rewrite He; norm).
    eexists. split; [ reflexivity | ]. repeat split.
Qed.

Lemma init_object_failure_codes_witness :
  ∃ s',
    alib_thread_init (λ c, match c with InitCond => 5 | _ => 0 end)
      1 4 initial_state = Ret (-5) s' ∧
    nthreads s' = 0 ∧ threads s' = threads initial_state ∧
    sem s' = Some 0 ∧ func_mutex s' = MxFree ∧
    nrunning_mutex s' = MxFree ∧
    idle_condition s' = idle_condition initial_state.
Proof.
  apply (init_object_failure_codes
           (λ c, match c with InitCond => 5 | _ => 0 end)
           1 4 initial_state eq_refl);
    first [ reflexivity | discriminate ].
Defined.

(** The polling loop when [sem_getvalue] fails. *)
Lemma init_poll_loop_fails e fuel k s v :
  sem s = Some v → e (InitGetvalue k) ≠ 0 →
  init_poll_loop e (S fuel) k s =
  Ret (-7) (set_trace (trace s ++ [EvSemGetvalue]) s).
Proof.
  intros Hs He. destruct s. cbn [init_poll_loop].
  unfold_prims. flat_in Hs. flat. rewrite Hs. norm.
  apply Z.eqb_neq in He. rewrite He. reflexivity.
Qed.

(** X3.  When every thread has been created and [sem_getvalue] then fails,
    [alib_thread_init] returns -7 with the pool fully started: [nthreads] is
    [max_conc] and all the threads idle, so [alib_go] will accept tasks
    although the call reported an error. *)
Theorem init_getvalue_failure_leaves_pool_started e fuel max_conc s :
  nthreads s = 0 →
  resources_ok e →
  1 ≤ max_conc ≤ MAX_THREADS →
  (∀ j, 0 ≤ j < max_conc → e (InitCreate j) = 0) →
  e (InitGetvalue 0) ≠ 0 →
  ∃ s',
    alib_thread_init e (S fuel) max_conc s = Ret (-7) s' ∧
    nthreads s' = max_conc ∧
    threads s' = threads s ++ replicate (Z.to_nat max_conc) WSemWait ∧
    ∀ e' func arg r s'', alib_go e' func arg s' = Ret r s'' → r ≠ 1.
Proof.
  intros Hn Hr Hmax Hc Hg.
  rewrite alib_thread_init_unfold by assumption.
  destruct (spawn_many_fields (Z.to_nat max_conc) 0 (init_resources s))
    as (H1 & H2 & _ & _ & _ & _ & _ & H8 & _).
  rewrite init_create_loop_ok.
  - rewrite (init_poll_loop_fails e fuel 0 _ 0); [ | | exact Hg ].
    + eexists. split; [ reflexivity | ].
      assert (Hnt : nthreads
                (set_trace
                   (trace (spawn_many (Z.to_nat max_conc) 0
                             (init_resources s)) ++ [EvSemGetvalue])
                   (spawn_many (Z.to_nat max_conc) 0 (init_resources s))) =
              max_conc).
      { cbn [nthreads set_trace]. rewrite H1. cbn. rewrite Hn. lia. }
      split; [ exact Hnt | ]. split.
      * cbn [threads set_trace]. rewrite H2. reflexivity.
      * intros e' func arg r s'' Hgo ->.
        revert Hgo. apply alib_go_initialized. rewrite Hnt. lia.
    + rewrite H8. reflexivity.
  - lia.
  - unfold MAX_THREADS in *. lia.
  - simpl. lia.
  - intros j Hj. apply Hc. lia.
Qed.

Lemma init_getvalue_failure_leaves_pool_started_witness :
  ∃ s',
    alib_thread_init (λ c, match c with InitGetvalue _ => 1 | _ => 0 end)
      1 2 initial_state = Ret (-7) s' ∧
    nthreads s' = 2 ∧
    threads s' = threads initial_state ++ replicate (Z.to_nat 2) WSemWait ∧
    ∀ e' func arg r s'', alib_go e' func arg s' = Ret r s'' → r ≠ 1.
Proof.
  apply (init_getvalue_failure_leaves_pool_started
           (λ c, match c with InitGetvalue _ => 1 | _ => 0 end)
           0 2 initial_state).
  - reflexivity.
  - repeat split.
  - unfold MAX_THREADS. lia.
  - intros j _. reflexivity.
  - discriminate.
Defined.

(** ** [alib_go]: its four outcomes *)

(** The tests of [alib_go] that pass when it can push. *)
Ltac go_tests nf Hn Hf Hr :=
  apply Z.eqb_neq in Hn;
  assert ((nf =? MAX_THREADS) = false) by (apply Z.eqb_neq; lia);
  assert (in_bounds nf = true) by (apply in_bounds_spec; lia);
  assert ((nf <? INT_MAX) = true)
    by (apply Z.ltb_lt; unfold MAX_THREADS, INT_MAX in *; lia);
  apply Z.ltb_lt in Hr.

Lemma alib_go_ok e func arg s v :
  go_can_push s → sem s = Some v → e GoPost = 0 →
  alib_go e func arg s = Ret 0 (set_sem (Some (v + 1)) (go_pushed func arg s)).
Proof.
  intros (Hn & Hf & Hr & Hfm & Hrm) Hs He.
  destruct s as [nt q tl fl al fm nf sm nr rm ic th tr].
  flat_in Hn. flat_in Hf. flat_in Hr. flat_in Hfm. flat_in Hrm. flat_in Hs.
  subst. go_tests nf Hn Hf Hr. apply Z.eqb_eq in He.
  unfold alib_go, go_pushed. run.
  rewrite <- !app_assoc. reflexivity.
Qed.

Lemma alib_go_post_fails e func arg s v :
  go_can_push s → sem s = Some v → e GoPost ≠ 0 →
  alib_go e func arg s = Ret 3 (go_pushed func arg s).
Proof.
  intros (Hn & Hf & Hr & Hfm & Hrm) Hs He.
  destruct s as [nt q tl fl al fm nf sm nr rm ic th tr].
  flat_in Hn. flat_in Hf. flat_in Hr. flat_in Hfm. flat_in Hrm. flat_in Hs.
  subst. go_tests nf Hn Hf Hr. apply Z.eqb_neq in He.
  unfold alib_go, go_pushed. run.
  rewrite <- !app_assoc. reflexivity.
Qed.

Lemma alib_go_full e func arg s :
  nthreads s ≠ 0 → nfuncs s = MAX_THREADS → alib_go e func arg s = Ret 2 s.
Proof.
  intros Hn Hf. destruct s. flat_in Hn. flat_in Hf. subst.
  unfold alib_go. unfold_prims. flat.
  apply Z.eqb_neq in Hn. rewrite Hn. reflexivity.
Qed.

(** X4.  When [alib_go] returns 3, its [sem_post] has failed after the task
    was pushed and counted, and nothing is taken back: the task is on the
    stack, [nfuncs] and [nrunning] are one higher, and the semaphore has not
    moved, so no thread is woken for the task. *)
Theorem go_post_failure_keeps_the_task e func arg s s' :
  alib_go e func arg s = Ret 3 s' →
  e GoPost ≠ 0 ∧
  func_list s' = <[Z.to_nat (nfuncs s) := func]> (func_list s) ∧
  arg_list s' = <[Z.to_nat (nfuncs s) := arg]> (arg_list s) ∧
  nfuncs s' = nfuncs s + 1 ∧
  nrunning s' = nrunning s + 1 ∧
  sem s' = sem s.
Proof.
  intros H. destruct s. unfold alib_go in H. run_in H.
  injection H as <-. flat.
  repeat split. apply Z.eqb_neq. assumption.
Qed.

Lemma go_post_failure_keeps_the_task_witness :
  alib_go go_post_fails 7 8 (init_done 1 initial_state) =
    Ret 3 (go_pushed 7 8 (init_done 1 initial_state)) ∧
  nfuncs (go_pushed 7 8 (init_done 1 initial_state)) =
    nfuncs (init_done 1 initial_state) + 1 ∧
  sem (go_pushed 7 8 (init_done 1 initial_state)) =
    sem (init_done 1 initial_state).
Proof.
  assert (H : alib_go go_post_fails 7 8 (init_done 1 initial_state) =
              Ret 3 (go_pushed 7 8 (init_done 1 initial_state)))
    by (vm_compute; reflexivity).
  split; [ exact H | ].
  destruct (go_post_failure_keeps_the_task go_post_fails 7 8 _ _ H)
    as (_ & _ & _ & H4 & _ & H6).
  split; [ exact H4 | exact H6 ].
Defined.

(** X5.  [alib_go] returns 0, 1, 2 or 3 and nothing else.  It returns 1
    exactly when [nthreads] is zero and 2 exactly when the pool is started
    and the stack holds [MAX_THREADS] entries; in both cases it returns
    before its first library call and the state is untouched. *)
Theorem go_return_codes e func arg s r s' :
  alib_go e func arg s = Ret r s' →
  (r = 0 ∨ r = 1 ∨ r = 2 ∨ r = 3) ∧
  (r = 1 ↔ nthreads s = 0) ∧
  (r = 2 ↔ nthreads s ≠ 0 ∧ nfuncs s = MAX_THREADS) ∧
  (r = 1 ∨ r = 2 → s' = s).
Proof.
  intros H. destruct s. unfold alib_go in H. run_in H.
  all: injection H as <- <-; flat.
  all: repeat match goal with
         | E : (_ =? _) = true |- _ => apply Z.eqb_eq in E
         | E : (_ =? _) = false |- _ => apply Z.eqb_neq in E
         end.
  all: repeat split; try lia; try tauto; try (intros [? | ?]; lia).
Qed.

Lemma go_return_codes_witness :
  alib_go all_ok 7 8 initial_state = Ret 1 initial_state ∧
  (1 = 1 ↔ nthreads initial_state = 0).
Proof.
  assert (H : alib_go all_ok 7 8 initial_state = Ret 1 initial_state)
    by reflexivity.
  split; [ exact H | ].
  exact (proj1 (proj2 (go_return_codes all_ok 7 8 _ _ _ H))).
Defined.

(** Fields of the state a successful [alib_go] leaves. *)
Lemma go_pushed_can_push func arg s :
  go_can_push s → nfuncs s + 1 < MAX_THREADS → nrunning s + 1 < INT_MAX →
  go_can_push (set_sem (sem s) (go_pushed func arg s)).
Proof.
  intros (Hn & Hf & Hr & Hfm & Hrm) Hf' Hr'. unfold go_can_push. cbn.
  repeat split; try assumption; lia.
Qed.

(** X6.  Submitting a list of tasks to a started pool while no thread takes
    any: the submissions succeed as long as the stack has room, each adding
    one entry, one to the running count and one unit to the semaphore, and
    from the moment the stack holds [MAX_THREADS] entries every further one
    returns 2 and changes nothing. *)
Theorem submit_all_fills_then_saturates e tasks :
  ∀ s v,
    nthreads s ≠ 0 →
    0 ≤ nfuncs s ≤ MAX_THREADS →
    func_mutex s = MxFree →
    nrunning_mutex s = MxFree →
    sem s = Some v →
    nrunning s + Z.of_nat (length tasks) ≤ INT_MAX →
    e GoPost = 0 →
    ∃ s',
      submit_all e tasks s =
        Ret (replicate (Z.to_nat (MAX_THREADS - nfuncs s) `min` length tasks) 0
             ++ replicate (length tasks - Z.to_nat (MAX_THREADS - nfuncs s)) 2)
            s' ∧
      nfuncs s' =
        nfuncs s +
        Z.of_nat (Z.to_nat (MAX_THREADS - nfuncs s) `min` length tasks) ∧
      nrunning s' =
        nrunning s +
        Z.of_nat (Z.to_nat (MAX_THREADS - nfuncs s) `min` length tasks) ∧
      sem s' =
        Some (v +
              Z.of_nat (Z.to_nat (MAX_THREADS - nfuncs s) `min` length tasks)).
Proof.
  induction tasks as [|[func arg] tasks IH]; intros s v Hn Hf Hfm Hrm Hs Hr He.
  - exists s. cbn [length]. rewrite Nat.min_0_r. cbn.
    rewrite !Z.add_0_r. auto.
  - cbn [submit_all length]. cbn [length] in Hr.
    destruct (decide (nfuncs s = MAX_THREADS)) as [Hfull|Hroom].
    + destruct (IH s v) as (s' & H1 & H2 & H3 & H4); try assumption; [ lia | ].
      exists s'. unfold bind at 1. rewrite alib_go_full by assumption.
      unfold bind at 1. rewrite H1.
      rewrite Hfull, Z.sub_diag in *. cbn in *. rewrite Nat.sub_0_r in *.
      auto.
    + assert (Hcan : go_can_push s).
      { unfold go_can_push. repeat split; try assumption; lia. }
      destruct (IH (set_sem (Some (v + 1)) (go_pushed func arg s)) (v + 1))
        as (s' & H1 & H2 & H3 & H4);
        try reflexivity; try assumption.
      * cbn. lia.
      * cbn. lia.
      * exists s'. unfold bind at 1.
        rewrite (alib_go_ok e func arg s v) by assumption.
        unfold bind at 1. rewrite H1.
        cbn [nfuncs nrunning set_sem go_pushed set_trace set_nrunning
             set_nfuncs] in *.
        destruct (Z.to_nat (MAX_THREADS - nfuncs s)) as [|room] eqn:E;
          [ lia | ].
        replace (Z.to_nat (MAX_THREADS - (nfuncs s + 1))) with room in * by lia.
        cbn [Nat.min Nat.sub replicate app] in *.
        rewrite H2, H3, H4.
        repeat split; try reflexivity; try lia.
        f_equal. lia.
Qed.

Lemma submit_all_fills_then_saturates_witness :
  ∃ s',
    submit_all all_ok [(11, 12); (21, 22)] (init_done 1 initial_state) =
      Ret (replicate
             (Z.to_nat (MAX_THREADS - nfuncs (init_done 1 initial_state))
              `min` 2) 0
           ++ replicate
                (2 - Z.to_nat
                       (MAX_THREADS - nfuncs (init_done 1 initial_state))) 2)
          s' ∧
    nfuncs s' =
      nfuncs (init_done 1 initial_state) +
      Z.of_nat
        (Z.to_nat (MAX_THREADS - nfuncs (init_done 1 initial_state))
         `min` 2) ∧
    nrunning s' =
      nrunning (init_done 1 initial_state) +
      Z.of_nat
        (Z.to_nat (MAX_THREADS - nfuncs (init_done 1 initial_state))
         `min` 2) ∧
    sem s' =
      Some (0 +
            Z.of_nat
              (Z.to_nat (MAX_THREADS - nfuncs (init_done 1 initial_state))
               `min` 2)).
Proof.
  apply (submit_all_fills_then_saturates all_ok [(11, 12); (21, 22)]
           (init_done 1 initial_state) 0).
  - vm_compute. discriminate.
  - vm_compute. split; discriminate.
  - reflexivity.
  - reflexivity.
  - reflexivity.
  - vm_compute. discriminate.
  - reflexivity.
Defined.

(** ** [thread_idle]: what a thread does when it wakes and when it is done *)

(** X7.  A thread that is woken while the quit message is set returns from
    [thread_idle] without touching the function stack: it consumes one unit
    of the semaphore and exits; [nfuncs], the two arrays, [nrunning] and
    [func_mutex] are as before, and no function is called. *)
Theorem woken_thread_quits_without_claiming tid s s' :
  alib_thread_quit s ≠ 0 →
  threads s !! tid = Some WSemWait →
  thread_idle_step tid s = Ret tt s' →
  threads s' = <[tid := WExited]> (threads s) ∧
  (∃ v, sem s = Some v ∧ 0 < v ∧ sem s' = Some (v - 1)) ∧
  nfuncs s' = nfuncs s ∧
  func_list s' = func_list s ∧
  arg_list s' = arg_list s ∧
  nrunning s' = nrunning s ∧
  func_mutex s' = func_mutex s ∧
  trace s' = trace s ++ [EvSemWait].
Proof.
  intros Hq Hth H. destruct s. flat_in Hq. flat_in Hth.
  unfold thread_idle_step in H. run_in H.
  all: try (exfalso; apply Hq; apply Z.eqb_eq; assumption).
  injection H as <-. flat.
  split; [ reflexivity | ].
  split; [ eexists; split; [ reflexivity | split; [ | reflexivity ] ] | ].
  - apply Z.ltb_lt. assumption.
  - repeat split.
Qed.

Lemma woken_thread_quits_without_claiming_witness :
  alib_thread_end end_join_fails (init_done 1 initial_state) =
    Ret 2 half_ended_pool ∧
  alib_thread_quit half_ended_pool ≠ 0 ∧
  threads half_ended_pool !! 0%nat = Some WSemWait ∧
  thread_idle_step 0 half_ended_pool =
    Ret tt (state_of (thread_idle_step 0 half_ended_pool)) ∧
  threads (state_of (thread_idle_step 0 half_ended_pool)) =
    <[0%nat := WExited]> (threads half_ended_pool).
Proof.
  assert (Hq : alib_thread_quit half_ended_pool ≠ 0)
    by (vm_compute; discriminate).
  assert (Hth : threads half_ended_pool !! 0%nat = Some WSemWait)
    by reflexivity.
  assert (Hstep : thread_idle_step 0 half_ended_pool =
                  Ret tt (state_of (thread_idle_step 0 half_ended_pool)))
    by (vm_compute; reflexivity).
  split; [ vm_compute; reflexivity | ].
  split; [ exact Hq | ]. split; [ exact Hth | ]. split; [ exact Hstep | ].
  exact (proj1 (woken_thread_quits_without_claiming 0 _ _ Hq Hth Hstep)).
Defined.

(** X8.  When the function a thread was running returns, the thread
    decrements [nrunning] under [nrunning_mutex] and goes back to waiting on
    the semaphore; it calls [pthread_cond_signal] exactly when the count has
    reached zero, and a suspended caller of [alib_thread_wait] is then
    signalled.  The function stack and the semaphore are not touched. *)
Theorem finishing_thread_signals_at_zero tid func arg s s' :
  threads s !! tid = Some (WRunning func arg) →
  thread_idle_step tid s = Ret tt s' →
  nrunning s' = nrunning s - 1 ∧
  threads s' = <[tid := WSemWait]> (threads s) ∧
  trace s' =
    trace s ++
    [EvLock NrunningMutex; EvStore Gnrunning] ++
    (if nrunning s =? 1 then [EvCondSignal] else []) ++
    [EvUnlock NrunningMutex] ∧
  (nrunning s = 1 → idle_condition s = CvWaiting →
   idle_condition s' = CvSignalled) ∧
  (nrunning s ≠ 1 → idle_condition s' = idle_condition s) ∧
  nfuncs s' = nfuncs s ∧
  sem s' = sem s ∧
  nrunning_mutex s' = MxFree.
Proof.
  intros Hth H. destruct s. flat_in Hth.
  unfold thread_idle_step in H. run_in H.
  all: injection H as <-; flat.
  all: repeat match goal with
         | E : (?x - 1 =? 0) = true |- _ =>
             apply Z.eqb_eq in E;
             assert ((x =? 1) = true) as -> by (apply Z.eqb_eq; lia)
         | E : (?x - 1 =? 0) = false |- _ =>
             apply Z.eqb_neq in E;
             assert ((x =? 1) = false) as -> by (apply Z.eqb_neq; lia)
         end.
  all: cbn [app]; rewrite <- ?app_assoc; cbn [app].
  all: repeat split; try reflexivity; try congruence; try lia.
Qed.

Lemma finishing_thread_signals_at_zero_witness :
  ∃ s1 s2 s3 s4,
    alib_go all_ok 7 8 (init_done 1 initial_state) = Ret 0 s1 ∧
    alib_thread_wait s1 = Blocks s2 ∧
    thread_idle_step 0 s2 = Ret tt s3 ∧
    threads s3 !! 0%nat = Some (WRunning 7 8) ∧
    thread_idle_step 0 s3 = Ret tt s4 ∧
    nrunning s4 = nrunning s3 - 1 ∧
    idle_condition s4 = CvSignalled.
Proof.
  eexists _, _, _, _.
  split; [ vm_compute; reflexivity | ].
  split; [ vm_compute; reflexivity | ].
  split; [ vm_compute; reflexivity | ].
  assert (Hth : threads
            (state_of (thread_idle_step 0
               (state_of (alib_thread_wait
                  (state_of (alib_go all_ok 7 8
                     (init_done 1 initial_state))))))) !! 0%nat =
          Some (WRunning 7 8)) by reflexivity.
  assert (Hstep : thread_idle_step 0
            (state_of (thread_idle_step 0
               (state_of (alib_thread_wait
                  (state_of (alib_go all_ok 7 8
                     (init_done 1 initial_state))))))) =
          Ret tt
            (state_of (thread_idle_step 0
               (state_of (thread_idle_step 0
                  (state_of (alib_thread_wait
                     (state_of (alib_go all_ok 7 8
                        (init_done 1 initial_state))))))))))
    by (vm_compute; reflexivity).
  split; [ exact Hth | ]. split; [ exact Hstep | ].
  destruct (finishing_thread_signals_at_zero 0 7 8 _ _ Hth Hstep)
    as (H1 & _ & _ & H4 & _).
  split; [ exact H1 | ].
  apply H4; reflexivity.
Defined.

(** X9.  [thread_idle] does not test whether the stack is empty.  A thread
    that wakes with the quit message clear while [nfuncs] is zero or less
    decrements it and reads [func_list] at a negative index. *)
Theorem pop_on_empty_stack_is_unchecked tid s v :
  threads s !! tid = Some WSemWait →
  sem s = Some v → 0 < v →
  alib_thread_quit s = 0 →
  func_mutex s = MxFree →
  INT_MIN < nfuncs s ≤ 0 →
  thread_idle_step tid s = Undef (OutOfBounds Gfunc_list (nfuncs s - 1)).
Proof.
  intros Hth Hs Hv Hq Hm Hn.
  destruct s as [nt q tl fl al fm nf sm nr rm ic th tr].
  flat_in Hth. flat_in Hs. flat_in Hq. flat_in Hm. flat_in Hn. subst.
  apply Z.ltb_lt in Hv.
  assert (Hd : (INT_MIN <? nf) = true) by (apply Z.ltb_lt; lia).
  assert (Hb : in_bounds (nf - 1) = false).
  { unfold in_bounds. apply andb_false_iff. left. apply Z.leb_gt. lia. }
  unfold thread_idle_step. unfold_prims. flat.
  rewrite Hth. norm. rewrite Hv. norm. rewrite Hd. norm. rewrite Hb.
  reflexivity.
Qed.

Lemma pop_on_empty_stack_is_unchecked_witness :
  alib_thread_init all_ok 1 1 half_ended_pool = Ret (-1) revived_pool ∧
  thread_idle_step 0 revived_pool =
  Undef (OutOfBounds Gfunc_list (nfuncs revived_pool - 1)).
Proof.
  split; [ vm_compute; reflexivity | ].
  apply (pop_on_empty_stack_is_unchecked 0 revived_pool 1).
  - reflexivity.
  - reflexivity.
  - lia.
  - reflexivity.
  - reflexivity.
  - vm_compute. split; [ reflexivity | discriminate ].
Defined.

(** ** What holds in every reachable state *)

Lemma keeps_refl I s : keeps I s s.
Proof. unfold keeps. auto. Qed.

Lemma keeps_trans I s1 s2 s3 : keeps I s1 s2 → keeps I s2 s3 → keeps I s1 s3.
Proof. unfold keeps. auto. Qed.

Ltac pool_inv_intro Hinv :=
  unfold pool_inv in Hinv; flat_in Hinv;
  destruct Hinv as (Hnf & Hsem & Hfm & Hrm & Hnt & Hmax & Hlen & Htl).

Ltac bool_facts :=
  repeat match goal with
    | E : (_ <? _) = true |- _ => apply Z.ltb_lt in E
    | E : (_ <? _) = false |- _ => apply Z.ltb_ge in E
    | E : (_ =? _) = true |- _ => apply Z.eqb_eq in E
    | E : (_ =? _) = false |- _ => apply Z.eqb_neq in E
    | E : (_ <=? _) = true |- _ => apply Z.leb_le in E
    | E : (_ <=? _) = false |- _ => apply Z.leb_gt in E
    | E : in_bounds _ = true |- _ => apply in_bounds_spec in E
    end.

Ltac pool_inv_solve :=
  unfold pool_inv; flat; bool_facts;
  repeat match goal with
    | Hsem : (∀ v, Some ?z = Some v → 0 ≤ v) |- _ =>
        pose proof (Hsem z eq_refl); clear Hsem
    | Hsem : (∀ v, ?x = Some v → 0 ≤ v), E : ?x = Some ?z |- _ =>
        pose proof (Hsem z E); clear Hsem
    end;
  repeat split;
  try (rewrite ?length_insert, ?length_app in *; cbn [length] in *);
  first
    [ lia
    | assumption
    | discriminate
    | (let v := fresh in let E := fresh in
       intros v E; first [ discriminate E | injection E as <-; lia
                         | eauto ])
    | (let o := fresh in intros o; first [ discriminate | eauto ])
    | eauto ].

Ltac pool_inv_walk :=
  respects_walk (keeps_refl pool_inv) (keeps_trans pool_inv).

(** A call that is run as one piece. *)
Ltac pool_inv_leaf :=
  let s := fresh "s" in
  let s' := fresh "s'" in
  let H := fresh "H" in
  let Hinv := fresh "Hinv" in
  intros s s' H Hinv; destruct s; pool_inv_intro Hinv; run_in H;
  try (injection H as <-); pool_inv_solve.

Lemma thread_idle_step_inv tid :
  respects (keeps pool_inv) (thread_idle_step tid).
Proof. unfold thread_idle_step. pool_inv_leaf. Qed.

Lemma run_thread_inv fuel tid : respects (keeps pool_inv) (run_thread fuel tid).
Proof.
  induction fuel as [|fuel IH]; simpl.
  - pool_inv_walk.
  - pool_inv_walk; first [ apply IH | apply thread_idle_step_inv ].
Qed.

Lemma pthread_join_inv e c fuel h :
  respects (keeps pool_inv) (pthread_join e c fuel h).
Proof.
  unfold pthread_join.
  pool_inv_walk; first [ apply run_thread_inv | pool_inv_leaf ].
Qed.

Lemma end_post_loop_inv e todo :
  ∀ i, respects (keeps pool_inv) (end_post_loop e todo i).
Proof.
  induction todo as [|todo IH]; intros i; simpl.
  - pool_inv_walk.
  - pool_inv_walk; first [ apply IH | pool_inv_leaf ].
Qed.

Lemma end_join_loop_inv e todo :
  ∀ i, respects (keeps pool_inv) (end_join_loop e todo i).
Proof.
  induction todo as [|todo IH]; intros i; simpl.
  - pool_inv_walk.
  - pool_inv_walk;
      first [ apply IH | apply pthread_join_inv | pool_inv_leaf ].
Qed.

Lemma alib_thread_end_inv e : respects (keeps pool_inv) (alib_thread_end e).
Proof.
  unfold alib_thread_end.
  pool_inv_walk;
    first [ apply end_post_loop_inv | apply end_join_loop_inv
          | pool_inv_leaf ].
Qed.

Lemma init_poll_loop_inv e fuel :
  ∀ k, respects (keeps pool_inv) (init_poll_loop e fuel k).
Proof.
  induction fuel as [|fuel IH]; intros k; simpl.
  - pool_inv_walk.
  - pool_inv_walk; first [ apply IH | pool_inv_leaf ].
Qed.

(** [alib_thread_wait], called while nobody waits, suspends its caller with
    [nrunning_mutex] released. *)
Lemma alib_thread_wait_inv s s' :
  final (alib_thread_wait s) = Some s' →
  no_waiter s → pool_inv s → pool_inv s'.
Proof.
  intros H [Hw1 Hw2] Hinv. destruct s. flat_in Hw1. flat_in Hw2.
  pool_inv_intro Hinv. unfold alib_thread_wait in H. run_in H.
  all: try (injection H as <-); pool_inv_solve.
Qed.

Lemma alib_thread_wait_resume_inv :
  respects (keeps pool_inv) alib_thread_wait_resume.
Proof. unfold alib_thread_wait_resume. pool_inv_leaf. Qed.

Lemma alib_go_inv e func arg : respects (keeps pool_inv) (alib_go e func arg).
Proof. unfold alib_go. pool_inv_leaf. Qed.

Lemma thread_list_extend (tl : list pthread_t) (th : list wstatus) :
  length tl = Z.to_nat MAX_THREADS →
  (length th < Z.to_nat MAX_THREADS)%nat →
  (∀ i, (i < length th)%nat → tl !! i = Some (Thread i)) →
  ∀ i, (i < length (th ++ [WSemWait]))%nat →
       <[length th := Thread (length th)]> tl !! i = Some (Thread i).
Proof.
  intros Hlen Hlt Htl i Hi. rewrite length_app in Hi. cbn in Hi.
  destruct (decide (i = length th)) as [->|Hne].
  - apply list_lookup_insert_eq. lia.
  - rewrite list_lookup_insert_ne by congruence. apply Htl. lia.
Qed.

(** The loop of [alib_thread_init] keeps the invariant when it starts with
    its index equal to the number of threads. *)
Lemma init_create_loop_inv e todo :
  ∀ i s s',
    final (init_create_loop e todo i s) = Some s' →
    nthreads s = i → pool_inv s → pool_inv s'.
Proof.
  induction todo as [|todo IH]; intros i s s' H Hi Hinv.
  - injection H as <-. exact Hinv.
  - cbn [init_create_loop] in H. destruct s. flat_in Hi. subst i.
    pool_inv_intro Hinv. run_in H.
    all: try (injection H as <-).
    all: try match goal with
           | E : init_create_loop _ _ ?i ?s1 = _ |- _ =>
               apply (IH i s1);
                 [ rewrite E; reflexivity | reflexivity | ];
               clear E IH; bool_facts; subst nthreads0;
               rewrite Nat2Z.id in *;
               unfold pool_inv; flat; rewrite length_insert;
               repeat split;
                 first
                   [ assumption | lia
                   | rewrite length_app; cbn [length]; lia
                   | apply thread_list_extend; first [ assumption | lia ] ]
           end.
    all: pool_inv_solve.
Qed.

Ltac loop_inv_chain :=
  repeat match goal with
    | E : init_create_loop ?e' ?n 0 ?st = Ret _ ?s1 |- _ =>
        assert (pool_inv s1)
          by (apply (init_create_loop_inv e' n 0 st s1 (f_equal final E));
              [ bool_facts; assumption | pool_inv_solve ]);
        clear E
    | E : init_create_loop ?e' ?n 0 ?st = Blocks ?s1 |- _ =>
        assert (pool_inv s1)
          by (apply (init_create_loop_inv e' n 0 st s1 (f_equal final E));
              [ bool_facts; assumption | pool_inv_solve ]);
        clear E
    | E : init_poll_loop ?e' ?n 0 ?st = Ret _ ?s1, Hst : pool_inv ?st |- _ =>
        assert (pool_inv s1)
          by (exact (init_poll_loop_inv e' n 0 st s1 (f_equal final E) Hst));
        clear E
    | E : init_poll_loop ?e' ?n 0 ?st = Blocks ?s1, Hst : pool_inv ?st |- _ =>
        assert (pool_inv s1)
          by (exact (init_poll_loop_inv e' n 0 st s1 (f_equal final E) Hst));
        clear E
    end.

Lemma alib_thread_init_inv e fuel max_conc :
  respects (keeps pool_inv) (alib_thread_init e fuel max_conc).
Proof.
  intros s s' H Hinv. destruct s. pool_inv_intro Hinv.
  unfold alib_thread_init in H. run_in H.
  all: try (injection H as <-).
  all: loop_inv_chain.
  all: try assumption.
  all: pool_inv_solve.
Qed.

(** ** Nobody waits unless [alib_thread_wait] was called *)

Lemma no_waiter_refl s : keeps no_waiter s s.
Proof. apply keeps_refl. Qed.

Ltac no_waiter_walk :=
  respects_walk (keeps_refl no_waiter) (keeps_trans no_waiter).

Ltac no_waiter_leaf :=
  respects_leaf
    ltac:(unfold keeps, no_waiter; flat; intros [? ?]; split; congruence).

Lemma thread_idle_step_no_waiter tid :
  respects (keeps no_waiter) (thread_idle_step tid).
Proof. unfold thread_idle_step. no_waiter_leaf. Qed.

Lemma run_thread_no_waiter fuel tid :
  respects (keeps no_waiter) (run_thread fuel tid).
Proof.
  induction fuel as [|fuel IH]; simpl.
  - no_waiter_walk.
  - no_waiter_walk; first [ apply IH | apply thread_idle_step_no_waiter ].
Qed.

Lemma pthread_join_no_waiter e c fuel h :
  respects (keeps no_waiter) (pthread_join e c fuel h).
Proof.
  unfold pthread_join.
  no_waiter_walk; first [ apply run_thread_no_waiter | no_waiter_leaf ].
Qed.

Lemma end_post_loop_no_waiter e todo :
  ∀ i, respects (keeps no_waiter) (end_post_loop e todo i).
Proof.
  induction todo as [|todo IH]; intros i; simpl.
  - no_waiter_walk.
  - no_waiter_walk; first [ apply IH | no_waiter_leaf ].
Qed.

Lemma end_join_loop_no_waiter e todo :
  ∀ i, respects (keeps no_waiter) (end_join_loop e todo i).
Proof.
  induction todo as [|todo IH]; intros i; simpl.
  - no_waiter_walk.
  - no_waiter_walk;
      first [ apply IH | apply pthread_join_no_waiter | no_waiter_leaf ].
Qed.

Lemma alib_thread_end_no_waiter e :
  respects (keeps no_waiter) (alib_thread_end e).
Proof.
  unfold alib_thread_end.
  no_waiter_walk;
    first [ apply end_post_loop_no_waiter | apply end_join_loop_no_waiter
          | no_waiter_leaf ].
Qed.

Lemma init_create_loop_no_waiter e todo :
  ∀ i, respects (keeps no_waiter) (init_create_loop e todo i).
Proof.
  induction todo as [|todo IH]; intros i; simpl.
  - no_waiter_walk.
  - no_waiter_walk; first [ apply IH | no_waiter_leaf ].
Qed.

Lemma init_poll_loop_no_waiter e fuel :
  ∀ k, respects (keeps no_waiter) (init_poll_loop e fuel k).
Proof.
  induction fuel as [|fuel IH]; intros k; simpl.
  - no_waiter_walk.
  - no_waiter_walk; first [ apply IH | no_waiter_leaf ].
Qed.

Lemma alib_thread_init_no_waiter e fuel max_conc :
  respects (keeps no_waiter) (alib_thread_init e fuel max_conc).
Proof.
  unfold alib_thread_init.
  no_waiter_walk;
    first [ apply init_create_loop_no_waiter
          | apply init_poll_loop_no_waiter | no_waiter_leaf ].
Qed.

Lemma alib_go_no_waiter e func arg :
  respects (keeps no_waiter) (alib_go e func arg).
Proof. unfold alib_go. no_waiter_leaf. Qed.

Lemma alib_thread_wait_resume_no_waiter s r s' :
  alib_thread_wait_resume s = Ret r s' → no_waiter s'.
Proof.
  intros H. destruct s. unfold alib_thread_wait_resume in H. run_in H.
  injection H as _ <-. unfold no_waiter. flat. split; discriminate.
Qed.

(** The invariant of the pool under one caller. *)
Lemma pool_reach_inv b s :
  pool_reach b s → pool_inv s ∧ (b = false → no_waiter s).
Proof.
  induction 1 as [|e c s r s' _ [IH1 IH2] H|s s' _ [IH1 IH2] H
                  |b tid s s' _ [IH1 IH2] H|s r s' _ [IH1 IH2] H].
  - split; [ | intros _; split; discriminate ].
    unfold pool_inv. cbn. rewrite length_replicate.
    repeat split; try discriminate; try lia.
  - specialize (IH2 eq_refl).
    destruct c as [fuel n|func arg| |]; cbn [run_call] in H.
    + split.
      * apply (alib_thread_init_inv e fuel n s s');
          [ rewrite H; reflexivity | exact IH1 ].
      * intros _. apply (alib_thread_init_no_waiter e fuel n s s');
          [ rewrite H; reflexivity | exact IH2 ].
    + split.
      * apply (alib_go_inv e func arg s s');
          [ rewrite H; reflexivity | exact IH1 ].
      * intros _. apply (alib_go_no_waiter e func arg s s');
          [ rewrite H; reflexivity | exact IH2 ].
    + exfalso. revert H. apply alib_thread_wait_never_returns.
    + split.
      * apply (alib_thread_end_inv e s s');
          [ rewrite H; reflexivity | exact IH1 ].
      * intros _. apply (alib_thread_end_no_waiter e s s');
          [ rewrite H; reflexivity | exact IH2 ].
  - split; [ | discriminate ].
    apply (alib_thread_wait_inv s s');
      [ rewrite H; reflexivity | apply IH2; reflexivity | exact IH1 ].
  - split.
    + apply (thread_idle_step_inv tid s s');
        [ rewrite H; reflexivity | exact IH1 ].
    + intros Hb. apply (thread_idle_step_no_waiter tid s s');
        [ rewrite H; reflexivity | exact (IH2 Hb) ].
  - split.
    + apply (alib_thread_wait_resume_inv s s');
        [ rewrite H; reflexivity | exact IH1 ].
    + intros _. exact (alib_thread_wait_resume_no_waiter s r s' H).
Qed.

Lemma pool_reach_reachable b s : pool_reach b s → reachable s.
Proof.
  induction 1 as [|e c s r s' _ IH H|s s' _ IH H|b tid s s' _ IH H
                  |s r s' _ IH H].
  - apply reach_initial.
  - exact (reach_return e c s r s' IH H).
  - exact (reach_suspend all_ok CallWait s s' IH H).
  - exact (reach_step s s' IH (step_idle tid s s' H)).
  - exact (reach_step s s' IH (step_wait_return s s' r H)).
Qed.

Lemma pool_reach_init_done max_conc :
  0 ≤ max_conc ≤ MAX_THREADS →
  pool_reach false (init_done max_conc initial_state).
Proof.
  intros Hn.
  apply (pr_return all_ok (CallInit 1 max_conc) initial_state 0).
  - apply pr_initial.
  - apply alib_thread_init_ok; try reflexivity.
    + apply resources_ok_all_ok.
    + lia.
Qed.



(** X11.  No call of the API returns, and no thread ends a step or suspends,
    with one of the two mutexes held: in every state one caller can bring
    the pool to, [func_mutex] and [nrunning_mutex] are free or not
    initialised. *)
Theorem no_mutex_is_left_held b s :
  pool_reach b s →
  ∀ o, func_mutex s ≠ MxHeld o ∧ nrunning_mutex s ≠ MxHeld o.
Proof.
  intros H o.
  destruct (pool_reach_inv b s H) as [(_ & _ & H3 & H4 & _) _]. auto.
Qed.

Lemma no_mutex_is_left_held_witness :
  pool_reach false (init_done 2 initial_state) ∧
  ∀ o, func_mutex (init_done 2 initial_state) ≠ MxHeld o ∧
       nrunning_mutex (init_done 2 initial_state) ≠ MxHeld o.
Proof.
  assert (H : pool_reach false (init_done 2 initial_state))
    by (apply pool_reach_init_done; unfold MAX_THREADS; lia).
  split; [ exact H | ].
  exact (no_mutex_is_left_held false _ H).
Defined.



(** ** [alib_thread_end]: what a shutdown does to the threads and the tasks *)

Lemma join_frame_refl s : join_frame s s.
Proof. unfold join_frame. auto. Qed.

Lemma join_frame_trans s1 s2 s3 :
  join_frame s1 s2 → join_frame s2 s3 → join_frame s1 s3.
Proof.
  unfold join_frame. intros (H1 & H2 & H3) (H4 & H5 & H6).
  repeat split; [ congruence | congruence | auto ].
Qed.

Ltac join_frame_walk := respects_walk join_frame_refl join_frame_trans.

Ltac join_frame_solve :=
  unfold join_frame; flat; rewrite ?length_insert;
  split; [ reflexivity | split; [ reflexivity | ] ];
  try (let t := fresh "t" in
       let Ht := fresh "Ht" in
       intros t Ht;
       first
         [ exact Ht
         | match goal with
           | |- <[?i:=_]> _ !! _ = _ =>
               destruct (decide (i = t)) as [<-|];
                 [ first [ congruence
                         | exact (lookup_insert_same _ _ _ _ Ht) ]
                 | rewrite list_lookup_insert_ne by assumption; exact Ht ]
           end ]).

Ltac join_frame_leaf := respects_leaf join_frame_solve.

Lemma thread_idle_step_join_frame tid :
  respects join_frame (thread_idle_step tid).
Proof. unfold thread_idle_step. join_frame_leaf. Qed.

Lemma run_thread_join_frame fuel tid :
  respects join_frame (run_thread fuel tid).
Proof.
  induction fuel as [|fuel IH]; simpl.
  - join_frame_walk.
  - join_frame_walk; first [ apply IH | apply thread_idle_step_join_frame ].
Qed.

Lemma pthread_join_join_frame e c fuel h :
  respects join_frame (pthread_join e c fuel h).
Proof.
  unfold pthread_join.
  join_frame_walk; first [ apply run_thread_join_frame | join_frame_leaf ].
Qed.

Lemma end_post_loop_join_frame e todo :
  ∀ i, respects join_frame (end_post_loop e todo i).
Proof.
  induction todo as [|todo IH]; intros i; simpl.
  - join_frame_walk.
  - join_frame_walk; first [ apply IH | join_frame_leaf ].
Qed.

Lemma end_join_loop_join_frame e todo :
  ∀ i, respects join_frame (end_join_loop e todo i).
Proof.
  induction todo as [|todo IH]; intros i; simpl.
  - join_frame_walk.
  - join_frame_walk;
      first [ apply IH | apply pthread_join_join_frame | join_frame_leaf ].
Qed.

(** A successful [pthread_join] leaves the thread joined. *)
Lemma pthread_join_joined e c fuel tid s s' :
  pthread_join e c fuel (Thread tid) s = Ret 0 s' →
  threads s' !! tid = Some WJoined.
Proof.
  intros H. unfold pthread_join in H. unfold bind at 1 in H.
  unfold get in H.
  assert (Hrun : ∀ w, threads s !! tid = Some w →
    (emit (EvJoin (Thread tid));;;
     if e c =? 0
     then run_thread fuel tid;;; set_status tid WJoined;;; ret 0
     else ret (e c)) s = Ret 0 s' →
    threads s' !! tid = Some WJoined).
  { intros w Hw H1. unfold bind at 1 in H1. unfold emit, modify in H1.
    destruct (e c =? 0) eqn:Ec.
    - unfold bind at 1 in H1.
      destruct (run_thread fuel tid _) as [[] s1| | |] eqn:E;
        try discriminate.
      destruct (run_thread_join_frame fuel tid _ s1
                  ltac:(rewrite E; reflexivity)) as (_ & Hl & _).
      unfold bind, set_status, modify, ret in H1. injection H1 as <-.
      cbn. apply list_lookup_insert_eq. rewrite Hl. cbn.
      eapply lookup_lt_Some. exact Hw.
    - unfold ret in H1. injection H1 as H1 _.
      apply Z.eqb_neq in Ec. congruence. }
  destruct (threads s !! tid) as [w|] eqn:Hw; [ | discriminate ].
  destruct w; first [ discriminate | exact (Hrun _ eq_refl H) ].
Qed.

(** When the loop of joins runs to its end, every thread it went through is
    joined. *)
Lemma end_join_loop_joins e todo :
  ∀ i s s',
    end_join_loop e todo i s = Ret None s' →
    0 ≤ i →
    ∀ j, (j < todo)%nat →
      ∃ tid, thread_list s !! Z.to_nat (i + Z.of_nat j) = Some (Thread tid) ∧
             threads s' !! tid = Some WJoined.
Proof.
  induction todo as [|todo IH]; intros i s s' H Hi j Hj; [ lia | ].
  cbn [end_join_loop] in H. unfold bind at 1 2 in H. unfold get in H.
  unfold array_read in H.
  destruct (in_bounds i); [ | discriminate ].
  destruct (thread_list s !! Z.to_nat i) as [h|] eqn:Hh; [ | discriminate ].
  unfold ret at 1 in H. unfold bind in H.
  destruct (pthread_join e (EndJoin i) join_fuel h s) as [rc s1| | |] eqn:E;
    try discriminate.
  destruct (rc =? 0) eqn:Erc; [ | discriminate ].
  apply Z.eqb_eq in Erc. subst rc.
  destruct (pthread_join_join_frame e (EndJoin i) join_fuel h s s1
              ltac:(rewrite E; reflexivity)) as (Htl & _ & _).
  destruct (end_join_loop_join_frame e todo (i + 1) s1 s'
              ltac:(rewrite H; reflexivity)) as (_ & _ & Hkeep).
  destruct j as [|j].
  - destruct h as [|tid].
    + unfold pthread_join, bind, get in E. discriminate.
    + exists tid. rewrite Z.add_0_r. split; [ exact Hh | ].
      apply Hkeep. exact (pthread_join_joined _ _ _ _ _ _ E).
  - destruct (IH (i + 1) s1 s' H ltac:(lia) j ltac:(lia)) as (tid & H1 & H2).
    exists tid. split; [ | exact H2 ].
    rewrite <- Htl.
    replace (i + Z.of_nat (S j)) with (i + 1 + Z.of_nat j) by lia.
    exact H1.
Qed.

(** The states between the parts of a successful [alib_thread_end]. *)
Lemma alib_thread_end_parts e s s' :
  alib_thread_end e s = Ret 0 s' →
  ∃ s1 s2,
    end_post_loop e (Z.to_nat (nthreads s)) 0
      (set_trace (trace s ++ [EvStore Galib_thread_quit])
         (set_alib_thread_quit 1 s)) = Ret None s1 ∧
    end_join_loop e (Z.to_nat (nthreads s)) 0 s1 = Ret None s2 ∧
    threads s' = threads s2.
Proof.
  intros H. unfold alib_thread_end in H. destruct s. run_in H.
  - injection H as -> _.
    match goal with
    | E : end_post_loop _ _ _ _ = _ |- _ =>
        apply end_post_loop_code in E; discriminate E
    end.
  - injection H as -> _.
    match goal with
    | E : end_join_loop _ _ _ _ = _ |- _ =>
        apply end_join_loop_code in E; discriminate E
    end.
  - injection H as <-. flat.
    match goal with
    | E1 : end_post_loop _ _ _ _ = Ret None ?s1,
      E2 : end_join_loop _ _ _ ?s1 = Ret None ?s2 |- _ =>
        exists s1, s2; split; [ exact E1 | split; [ exact E2 | reflexivity ] ]
    end.
Qed.

(** X13.  [alib_thread_end] returns 0 only after every thread of the pool
    has returned from [thread_idle] and has been joined: in the state it
    returns in, all the threads that were created are joined. *)
Theorem end_joins_every_thread b e s s' :
  pool_reach b s →
  alib_thread_end e s = Ret 0 s' →
  length (threads s') = length (threads s) ∧
  ∀ tid, (tid < length (threads s))%nat → threads s' !! tid = Some WJoined.
Proof.
  intros Hreach H.
  destruct (pool_reach_inv b s Hreach)
    as [(_ & _ & _ & _ & Hnt & _ & _ & Htl) _].
  destruct (alib_thread_end_parts e s s' H) as (s1 & s2 & E1 & E2 & Hth).
  destruct (end_post_loop_join_frame e _ 0 _ s1
              ltac:(rewrite E1; reflexivity)) as (Htl1 & Hlen1 & _).
  destruct (end_join_loop_join_frame e _ 0 s1 s2
              ltac:(rewrite E2; reflexivity)) as (_ & Hlen2 & _).
  cbn in Htl1, Hlen1. rewrite Hth. split; [ congruence | ].
  intros tid Htid.
  destruct (end_join_loop_joins e _ 0 s1 s2 E2 ltac:(lia) tid ltac:(lia))
    as (tid' & H1 & H2).
  rewrite Htl1 in H1.
  replace (Z.to_nat (0 + Z.of_nat tid)) with tid in H1 by lia.
  rewrite (Htl tid Htid) in H1. injection H1 as <-. exact H2.
Qed.

Lemma end_joins_every_thread_witness :
  pool_reach false (init_done 2 initial_state) ∧
  alib_thread_end all_ok (init_done 2 initial_state) =
    Ret 0 (state_of (alib_thread_end all_ok (init_done 2 initial_state))) ∧
  ∀ tid, (tid < length (threads (init_done 2 initial_state)))%nat →
    threads (state_of (alib_thread_end all_ok (init_done 2 initial_state)))
      !! tid = Some WJoined.
Proof.
  assert (Hr : pool_reach false (init_done 2 initial_state))
    by (apply pool_reach_init_done; unfold MAX_THREADS; lia).
  assert (He : alib_thread_end all_ok (init_done 2 initial_state) =
    Ret 0 (state_of (alib_thread_end all_ok (init_done 2 initial_state))))
    by (vm_compute; reflexivity).
  split; [ exact Hr | ]. split; [ exact He | ].
  exact (proj2 (end_joins_every_thread false all_ok _ _ Hr He)).
Defined.













(** X15.  Only [alib_go] tests whether the pool is started.  On a pool whose
    semaphore and [nrunning_mutex] are not valid, as before the first
    [alib_thread_init] and after a successful [alib_thread_end],
    [alib_thread_wait] locks the invalid mutex and [alib_thread_end] uses
    the invalid semaphore: the behaviour of both is undefined. *)
Theorem wait_and_end_do_not_check_initialisation e s :
  sem s = None →
  nrunning_mutex s = MxInvalid →
  alib_thread_wait s = Undef (InvalidMutex NrunningMutex) ∧
  alib_thread_end e s = Undef InvalidSem.
Proof.
  intros Hs Hm. destruct s. flat_in Hs. flat_in Hm. subst. split.
  - reflexivity.
  - unfold alib_thread_end. unfold_prims. flat.
    destruct (Z.to_nat nthreads0) as [|n]; reflexivity.
Qed.

Lemma wait_and_end_do_not_check_initialisation_witness :
  alib_thread_wait initial_state = Undef (InvalidMutex NrunningMutex) ∧
  alib_thread_end all_ok initial_state = Undef InvalidSem.
Proof.
  apply (wait_and_end_do_not_check_initialisation all_ok initial_state);
    reflexivity.
Defined.

(** The codes with which the loops of [alib_thread_init] leave it. *)
Lemma init_create_loop_code e todo :
  ∀ i s c s', init_create_loop e todo i s = Ret (Some c) s' → c = -6.
Proof.
  induction todo as [|todo IH]; intros i s c s' H.
  - discriminate.
  - cbn [init_create_loop] in H. destruct s. run_in H.
    all: first [ exact (IH _ _ _ _ H) | injection H as <- _; reflexivity ].
Qed.

Lemma init_poll_loop_code e fuel :
  ∀ k s r s', init_poll_loop e fuel k s = Ret r s' → r = 0 ∨ r = -7.
Proof.
  induction fuel as [|fuel IH]; intros k s r s' H.
  - discriminate.
  - cbn [init_poll_loop] in H. destruct s. run_in H.
    all: first [ exact (IH _ _ _ _ H) | injection H as <- _; auto ].
Qed.

(** X16.  [alib_thread_init] returns 0 or one of the negative codes -1, -3,
    -4, -5, -6 and -7, whatever [max_conc] is: it never returns a positive
    number, and it never returns -2. *)
Theorem init_return_codes e fuel max_conc s r s' :
  alib_thread_init e fuel max_conc s = Ret r s' →
  r = 0 ∨ r = -1 ∨ r = -3 ∨ r = -4 ∨ r = -5 ∨ r = -6 ∨ r = -7.
Proof.
  intros H. unfold alib_thread_init in H. destruct s. run_in H.
  all: try (injection H as <- _; tauto).
  all: first
         [ apply init_poll_loop_code in H; tauto
         | match goal with
           | E : init_create_loop _ _ _ _ = Ret (Some ?z) _ |- _ =>
               apply init_create_loop_code in E; injection H as <- _; subst;
               tauto
           end ].
Qed.

Lemma init_return_codes_witness :
  alib_thread_init all_ok 1 3 initial_state =
    Ret 0 (init_done 3 initial_state) ∧
  (0 = 0 ∨ 0 = -1 ∨ 0 = -3 ∨ 0 = -4 ∨ 0 = -5 ∨ 0 = -6 ∨ 0 = -7).
Proof.
  assert (H : alib_thread_init all_ok 1 3 initial_state =
              Ret 0 (init_done 3 initial_state))
    by (vm_compute; reflexivity).
  split; [ exact H | ].
  exact (init_return_codes all_ok 1 3 _ _ _ H).
Defined.

(** X17.  [alib_thread_end] returns a code between 0 and 5; whichever it
    is, the quit message is left set and [nthreads] is left as it was, so
    that after a failed shutdown the pool still counts as started while its
    threads exit as soon as they are woken. *)
Theorem end_return_codes e s r s' :
  alib_thread_end e s = Ret r s' →
  (r = 0 ∨ r = 1 ∨ r = 2 ∨ r = 3 ∨ r = 4 ∨ r = 5) ∧
  alib_thread_quit s' = 1 ∧
  nthreads s' = nthreads s.
Proof.
  intros H.
  destruct (alib_thread_end_frame e s s') as (H1 & H2 & _);
    [ rewrite H; reflexivity | ].
  split; [ | auto ].
  unfold alib_thread_end in H. destruct s. run_in H.
  all: try (injection H as <- _; tauto).
  all: match goal with
       | E : end_post_loop _ _ _ _ = Ret (Some ?z) _ |- _ =>
           apply end_post_loop_code in E; injection H as <- _; subst; tauto
       | E : end_join_loop _ _ _ _ = Ret (Some ?z) _ |- _ =>
           apply end_join_loop_code in E; injection H as <- _; subst; tauto
       end.
Qed.

Lemma end_return_codes_witness :
  alib_thread_end end_post_fails (init_done 1 initial_state) =
    Ret 1 (state_of (alib_thread_end end_post_fails
                       (init_done 1 initial_state))) ∧
  alib_thread_quit
    (state_of (alib_thread_end end_post_fails (init_done 1 initial_state)))
  = 1.
Proof.
  assert (H : alib_thread_end end_post_fails (init_done 1 initial_state) =
    Ret 1 (state_of (alib_thread_end end_post_fails
                       (init_done 1 initial_state))))
    by (vm_compute; reflexivity).
  split; [ exact H | ].
  exact (proj1 (proj2 (end_return_codes end_post_fails _ _ _ H))).
Defined.

(** ** The stack discipline *)

(** X18.  The function stack is last in, first out: when a task has just
    been submitted and an idling thread wakes, the thread takes exactly that
    task.  It calls the submitted function with the submitted argument,
    [nfuncs] and the semaphore are back to what they were before the
    submission, and the running count still counts the task. *)
Theorem last_pushed_is_first_popped b e func arg tid s s1 :
  pool_reach b s →
  alib_go e func arg s = Ret 0 s1 →
  alib_thread_quit s = 0 →
  threads s !! tid = Some WSemWait →
  ∃ s2,
    thread_idle_step tid s1 = Ret tt s2 ∧
    threads s2 = <[tid := WRunning func arg]> (threads s) ∧
    nfuncs s2 = nfuncs s ∧
    sem s2 = sem s ∧
    nrunning s2 = nrunning s + 1 ∧
    calls (trace s2) = calls (trace s) ++ [EvCall func arg].
Proof.
  intros Hr Hgo Hq Hth.
  destruct (pool_reach_inv b s Hr) as [(_ & Hsem & _) _].
  destruct (reachable_lengths s (pool_reach_reachable b s Hr))
    as (_ & Hfl & Hal).
  apply alib_go_success in Hgo
    as (Hn & Hb & Hrun & Hfm & Hrm & He & v & Hv & ->).
  specialize (Hsem v Hv).
  destruct s as [nt q tl fl al fm nf sm nr rm ic th tr].
  flat_in Hq. flat_in Hth. flat_in Hfl. flat_in Hal. flat_in Hb.
  flat_in Hfm. flat_in Hv. subst.
  assert (H1 : (0 <? v + 1) = true) by (apply Z.ltb_lt; lia).
  assert (H2 : (INT_MIN <? nf + 1) = true)
    by (apply Z.ltb_lt; unfold INT_MIN; lia).
  assert (H3 : in_bounds nf = true) by (apply in_bounds_spec; lia).
  unfold thread_idle_step. unfold_prims. flat.
  rewrite Hth. norm. rewrite H1. norm. rewrite H2. norm.
  replace (nf + 1 - 1) with nf by lia. rewrite H3. norm.
  rewrite !list_lookup_insert_eq by (unfold MAX_THREADS in *; lia). norm.
  destruct (decide (Worker tid = Worker tid)); [ | congruence ]. norm.
  eexists. split; [ reflexivity | ]. flat.
  split; [ reflexivity | ]. split; [ reflexivity | ].
  split; [ f_equal; lia | ]. split; [ reflexivity | ].
  unfold calls. rewrite !List.filter_app. cbn [List.filter is_call].
  rewrite !app_nil_r. reflexivity.
Qed.

Lemma last_pushed_is_first_popped_witness :
  pool_reach false (init_done 1 initial_state) ∧
  alib_go all_ok 7 8 (init_done 1 initial_state) =
    Ret 0 (state_of (alib_go all_ok 7 8 (init_done 1 initial_state))) ∧
  ∃ s2,
    thread_idle_step 0
      (state_of (alib_go all_ok 7 8 (init_done 1 initial_state))) =
    Ret tt s2 ∧
    threads s2 =
      <[0%nat := WRunning 7 8]> (threads (init_done 1 initial_state)).
Proof.
  assert (Hr : pool_reach false (init_done 1 initial_state))
    by (apply pool_reach_init_done; unfold MAX_THREADS; lia).
  assert (Hgo : alib_go all_ok 7 8 (init_done 1 initial_state) =
    Ret 0 (state_of (alib_go all_ok 7 8 (init_done 1 initial_state))))
    by (vm_compute; reflexivity).
  split; [ exact Hr | ]. split; [ exact Hgo | ].
  destruct (last_pushed_is_first_popped false all_ok 7 8 0%nat _ _ Hr Hgo
              eq_refl eq_refl) as (s2 & H1 & H2 & _).
  exists s2. split; assumption.
Defined.

(** ** [alib_thread_wait]: when it returns and when it does not *)

(** X19.  The wait works when the count reaches zero after the call: if the
    caller is suspended in [alib_thread_wait] while the last running
    function is still executing, then as soon as that function returns its
    thread brings the count to zero and signals, and [alib_thread_wait]
    returns 0 with [nrunning_mutex] released. *)
Theorem wait_returns_when_count_reaches_zero tid func arg s :
  idle_condition s = CvWaiting →
  nrunning_mutex s = MxFree →
  nrunning s = 1 →
  threads s !! tid = Some (WRunning func arg) →
  ∃ s1 s2,
    thread_idle_step tid s = Ret tt s1 ∧
    alib_thread_wait_resume s1 = Ret 0 s2 ∧
    nrunning s2 = 0 ∧
    idle_condition s2 = CvReady ∧
    nrunning_mutex s2 = MxFree.
Proof.
  intros Hc Hm Hn Hth.
  destruct s as [nt q tl fl al fm nf sm nr rm ic th tr].
  flat_in Hc. flat_in Hm. flat_in Hn. flat_in Hth. subst.
  eexists _, _. split.
  - unfold thread_idle_step. unfold_prims. flat. rewrite Hth. norm.
    change (INT_MIN <? 1) with true. norm.
    change (1 - 1 =? 0) with true. norm.
    destruct (decide (Worker tid = Worker tid)); [ | congruence ].
    reflexivity.
  - split.
    + unfold alib_thread_wait_resume. unfold_prims. flat.
      destruct (decide (MainThread = MainThread)); [ | congruence ].
      reflexivity.
    + repeat split.
Qed.

Lemma wait_returns_when_count_reaches_zero_witness :
  ∃ s1 s2,
    thread_idle_step 0
      (state_of (thread_idle_step 0
         (state_of (alib_thread_wait
            (state_of (alib_go all_ok 7 8 (init_done 1 initial_state)))))))
    = Ret tt s1 ∧
    alib_thread_wait_resume s1 = Ret 0 s2 ∧
    nrunning s2 = 0 ∧
    idle_condition s2 = CvReady ∧
    nrunning_mutex s2 = MxFree.
Proof.
  apply (wait_returns_when_count_reaches_zero 0 7 8
    (state_of (thread_idle_step 0
       (state_of (alib_thread_wait
          (state_of (alib_go all_ok 7 8 (init_done 1 initial_state))))))));
    reflexivity.
Defined.

(** X20.  [alib_thread_wait] never looks at [nrunning].  Whenever it is
    called on a pool in which no function is running and the semaphore holds
    nothing, whatever the running count is, the caller is suspended in a
    state from which nothing can happen: the call never returns. *)
Theorem wait_on_idle_pool_never_returns s :
  nrunning_mutex s = MxFree →
  idle_condition s = CvReady →
  sem s = Some 0 →
  (∀ tid func arg, threads s !! tid ≠ Some (WRunning func arg)) →
  ∃ s',
    alib_thread_wait s = Blocks s' ∧
    nrunning s' = nrunning s ∧
    ∀ s'', ¬ step s' s''.
Proof.
  intros Hm Hc Hs Hth. eexists.
  split; [ apply alib_thread_wait_suspends; assumption | ].
  split; [ reflexivity | ].
  intros s'' Hstep.
  inversion Hstep as [tid sa sb Hidle|sa sb r Hres]; subst.
  - revert Hidle. apply thread_idle_step_no_unit.
    + exact Hs.
    + intros f a. apply Hth.
  - revert Hres. apply alib_thread_wait_resume_waiting. reflexivity.
Qed.

Lemma wait_on_idle_pool_never_returns_witness :
  ∃ s',
    alib_thread_wait (init_done 3 initial_state) = Blocks s' ∧
    nrunning s' = nrunning (init_done 3 initial_state) ∧
    ∀ s'', ¬ step s' s''.
Proof.
  apply (wait_on_idle_pool_never_returns (init_done 3 initial_state)).
  - reflexivity.
  - reflexivity.
  - reflexivity.
  - intros tid func arg Hl.
    destruct tid as [|[|[|tid]]]; cbn in Hl; discriminate Hl.
Defined.
